(** * ai-code-reviewer: the diff engine, the file filter and the result merger

    A shallow embedding of [src/diff.ts] ([parseDiff], [filterFiles],
    [splitIntoChunks], [limitFiles]), of [src/config.ts]
    ([shouldIgnoreFile], [matchPattern]) and of [src/review.ts]
    ([mergeReviewResults]), with the properties of the specification
    stated and settled over it.

    Conventions.
    - A JavaScript [number] that holds a count or a size is a [Z]; the
      arithmetic of the embedded functions is exact on integers below 2^53,
      which is where the source computes.
    - A JavaScript string is a [string]: a sequence of 8-bit code units.
    - An array that is only appended to is a [list] that grows at its end. *)

From Stdlib Require Import ZArith List Bool Lia Ascii String.
From Stdlib Require Import Permutation Sorted.
From Stdlib Require Import DecimalString.
Import ListNotations.

Open Scope string_scope.
Open Scope Z_scope.
Open Scope list_scope.

(* ================================================================== *)
(** * Data model ([src/types.ts]) *)

Record DiffHunk := mkHunk {
  oldStart : Z;
  oldLines : Z;
  newStart : Z;
  newLines : Z;
  content  : string
}.

Record DiffFile := mkFile {
  path      : string;
  additions : Z;
  deletions : Z;
  hunks     : list DiffHunk
}.

Record DiffChunk := mkChunk {
  files      : list DiffFile;
  totalLines : Z
}.

Inductive Assessment := approve | request_changes | comment.

Inductive Severity := sev_critical | sev_warning | sev_suggestion.

Inductive IssueCategory :=
  security | performance | logic | style | best_practice | documentation.

Record ReviewIssue := mkIssue {
  severity       : Severity;
  category       : IssueCategory;
  file           : string;
  line           : Z;
  title          : string;
  description    : string;
  suggestion     : option string
}.

Record ReviewResult := mkResult {
  summary            : string;
  issues             : list ReviewIssue;
  positives          : list string;
  overall_assessment : Assessment
}.

(* ================================================================== *)
(** * String primitives of the JavaScript runtime *)

Definition LF : ascii := "010"%char.
Definition CR : ascii := "013"%char.

(** [s.startsWith(p)]. *)
Fixpoint startsWith (s p : string) {struct s} : bool :=
  match p with
  | EmptyString => true
  | String a p' =>
      match s with
      | EmptyString => false
      | String b s' => Ascii.eqb b a && startsWith s' p'
      end
  end.

(** [s.split('\n')]: never empty, the empty string gives one empty line. *)
Fixpoint splitLines (s : string) : list string :=
  match s with
  | EmptyString => [EmptyString]
  | String c s' =>
      if Ascii.eqb c LF then EmptyString :: splitLines s'
      else match splitLines s' with
           | l :: ls => String c l :: ls
           | [] => [String c EmptyString]
           end
  end.

(** [lines.join('\n')]. *)
Definition joinLines (ls : list string) : string :=
  String.concat (String LF EmptyString) ls.

(** The string without its first [n] code units. *)
Fixpoint dropString (n : nat) (s : string) : string :=
  match n, s with
  | O, _ => s
  | S n', String _ s' => dropString n' s'
  | S _, EmptyString => EmptyString
  end.

(** The class [\d] of a regular expression: the ten ASCII digits. *)
Definition isDigit (c : ascii) : bool :=
  (Ascii.leb "0" c && Ascii.leb c "9")%char.

(** The longest run of digits at the head of a string, and what follows. *)
Fixpoint spanDigits (s : string) : string * string :=
  match s with
  | EmptyString => (EmptyString, EmptyString)
  | String c s' =>
      if isDigit c then let (d, r) := spanDigits s' in (String c d, r)
      else (EmptyString, s)
  end.

(** [parseInt(digits, 10)] on a string of digits. *)
Definition parseInt10 (digits : string) : Z :=
  fold_left (fun acc c => 10 * acc + (Z.of_nat (nat_of_ascii c) - 48))
            (list_ascii_of_string digits) 0.

(** The dot of a regular expression matches any code unit but a line
    terminator. *)
Definition isLineTerminator (c : ascii) : bool :=
  Ascii.eqb c LF || Ascii.eqb c CR.

(** The longest run at the head of a string that [.*] can take. *)
Fixpoint takeDots (s : string) : string :=
  match s with
  | EmptyString => EmptyString
  | String c s' =>
      if isLineTerminator c then EmptyString else String c (takeDots s')
  end.

(* ================================================================== *)
(** * [parseDiff] ([src/diff.ts], lines 7-102) *)

(** ** The two regular expressions of the parser *)

(** The tail of the file header expression, a greedy group of dots, the
    separator [ b/] and a second group of dots, anchored at the head of
    [s]; the result is the second group. The first group is greedy, so the
    separator that counts is the last one the first group can reach. *)
Fixpoint matchNewPath (s : string) : option string :=
  match s with
  | EmptyString => None
  | String c s' =>
      let here :=
        if startsWith s " b/" then Some (takeDots (dropString 3 s))
        else None in
      if isLineTerminator c then here
      else match matchNewPath s' with
           | Some p => Some p
           | None => here
           end
  end.

(** [line.match] of the file header expression of line 30, its second
    group: the leftmost place of the line where the expression matches. *)
Fixpoint matchFileHeader (line : string) : option string :=
  let here :=
    if startsWith line "diff --git a/"
    then matchNewPath (dropString 13 line) else None in
  match here with
  | Some p => Some p
  | None =>
      match line with
      | EmptyString => None
      | String _ rest => matchFileHeader rest
      end
  end.

(** The optional group of the hunk header expression, a comma and a run of
    digits, at the head of [s]: the digits of the group when it takes part
    in the match, and what follows. *)
Definition matchCount (s : string) : option string * string :=
  match s with
  | String "," r =>
      let (d, r') := spanDigits r in
      match d with
      | EmptyString => (None, s)
      | _ => (Some d, r')
      end
  | _ => (None, s)
  end.

(** The four groups of the hunk header expression. *)
Definition HunkMatch : Type := string * option string * string * option string.

(** The hunk header expression of line 66 anchored at the head of [s]:
    [@@ -], digits, the optional group, [ +], digits, the optional group,
    [ @@]. Every run of digits has to be followed by a code unit that is not
    a digit, so the greedy choices are the only ones that can succeed. *)
Definition matchHunkAt (s : string) : option HunkMatch :=
  if startsWith s "@@ -" then
    let (d1, r1) := spanDigits (dropString 4 s) in
    match d1 with
    | EmptyString => None
    | _ =>
        let (c1, r2) := matchCount r1 in
        if startsWith r2 " +" then
          let (d2, r3) := spanDigits (dropString 2 r2) in
          match d2 with
          | EmptyString => None
          | _ =>
              let (c2, r4) := matchCount r3 in
              if startsWith r4 " @@" then Some (d1, c1, d2, c2) else None
          end
        else None
    end
  else None.

(** [line.match(...)] of the hunk header expression: the leftmost match. *)
Fixpoint matchHunkHeader (line : string) : option HunkMatch :=
  match matchHunkAt line with
  | Some m => Some m
  | None =>
      match line with
      | EmptyString => None
      | String _ rest => matchHunkHeader rest
      end
  end.

(** [parseInt(group || '1', 10)]. *)
Definition countOr1 (g : option string) : Z :=
  match g with
  | Some d => parseInt10 d
  | None => 1
  end.

(** The object literal of line 68. *)
Definition newHunk (m : HunkMatch) : DiffHunk :=
  let '(d1, c1, d2, c2) := m in
  mkHunk (parseInt10 d1) (countOr1 c1) (parseInt10 d2) (countOr1 c2)
         EmptyString.

(** ** The classes of lines *)

Definition isFileHeader (l : string) : bool := startsWith l "diff --git".

Definition isMetadata (l : string) : bool :=
  startsWith l "index " || startsWith l "---" || startsWith l "+++"
  || startsWith l "new file" || startsWith l "deleted file"
  || startsWith l "similarity index" || startsWith l "rename from"
  || startsWith l "rename to" || startsWith l "Binary files".

Definition isHunkMarker (l : string) : bool := startsWith l "@@".

Definition isAddition (l : string) : bool :=
  startsWith l "+" && negb (startsWith l "+++").

Definition isDeletion (l : string) : bool :=
  startsWith l "-" && negb (startsWith l "---").

(** ** The state of the scan

    A [DiffHunk] is an object: [currentHunk] and the entries of the [hunks]
    array of a file are references to it, and the assignment to
    [currentHunk.content] is seen through all of them. The hunk objects live
    in a store, in the order of their creation, and a reference is a
    position of the store. A [DiffFile] under construction is written only
    while it is the current file, so it is kept by value, its [hunks] being
    references. *)

Definition HunkRef : Type := nat.

Record FileAcc := mkAcc {
  accPath      : string;
  accAdditions : Z;
  accDeletions : Z;
  accHunks     : list HunkRef
}.

Record ParseState := mkParse {
  parsedFiles : list FileAcc;        (* [files] *)
  currentFile : option FileAcc;
  currentHunk : option HunkRef;
  hunkContent : list string;
  store       : list DiffHunk
}.

Definition nullHunk : DiffHunk := mkHunk 0 0 0 0 EmptyString.

Definition deref (st : list DiffHunk) (r : HunkRef) : DiffHunk :=
  nth r st nullHunk.

(** [hunk.content = text] on the object that [r] refers to. *)
Fixpoint setContent (r : HunkRef) (text : string) (st : list DiffHunk)
  : list DiffHunk :=
  match st, r with
  | [], _ => []
  | h :: t, O =>
      mkHunk (oldStart h) (oldLines h) (newStart h) (newLines h) text :: t
  | h :: t, S r' => h :: setContent r' text t
  end.

Definition pushHunk (f : FileAcc) (r : HunkRef) : FileAcc :=
  mkAcc (accPath f) (accAdditions f) (accDeletions f) (accHunks f ++ [r]).

(** Lines 21-27 and 93-99: the open hunk is completed and pushed to the
    open file, and the open file is pushed to [files]. Nothing happens when
    no file is open. *)
Definition saveFile (st : ParseState) : ParseState :=
  match currentFile st with
  | None => st
  | Some f =>
      match currentHunk st with
      | Some r =>
          mkParse (parsedFiles st ++ [pushHunk f r]) (currentFile st)
                  (currentHunk st) (hunkContent st)
                  (setContent r (joinLines (hunkContent st)) (store st))
      | None =>
          mkParse (parsedFiles st ++ [f]) (currentFile st)
                  (currentHunk st) (hunkContent st) (store st)
      end
  end.

(** Lines 19-42: a file header. *)
Definition openFile (st : ParseState) (l : string) : ParseState :=
  let st1 := saveFile st in
  let filePath :=
    match matchFileHeader l with
    | Some p => p
    | None => EmptyString
    end in
  mkParse (parsedFiles st1) (Some (mkAcc filePath 0 0 [])) None []
          (store st1).

(** Lines 58-78: a line that starts with [@@]. The open hunk is saved when
    a file is open; a new hunk object is created when the expression
    matches, and only then; [hunkContent] restarts in both cases. *)
Definition openHunk (st : ParseState) (l : string) : ParseState :=
  let '(file1, store1) :=
    match currentHunk st, currentFile st with
    | Some r, Some f =>
        (Some (pushHunk f r),
         setContent r (joinLines (hunkContent st)) (store st))
    | _, _ => (currentFile st, store st)
    end in
  match matchHunkHeader l with
  | Some m =>
      mkParse (parsedFiles st) file1 (Some (List.length store1)) [l]
              (store1 ++ [newHunk m])
  | None =>
      mkParse (parsedFiles st) file1 (currentHunk st) [l] store1
  end.

Definition bumpAdditions (f : FileAcc) : FileAcc :=
  mkAcc (accPath f) (accAdditions f + 1) (accDeletions f) (accHunks f).

Definition bumpDeletions (f : FileAcc) : FileAcc :=
  mkAcc (accPath f) (accAdditions f) (accDeletions f + 1) (accHunks f).

(** Lines 81-89: any other line, kept only while a hunk is open. *)
Definition contentLine (st : ParseState) (l : string) : ParseState :=
  match currentHunk st with
  | None => st
  | Some _ =>
      let file1 :=
        if isAddition l then option_map bumpAdditions (currentFile st)
        else if isDeletion l then option_map bumpDeletions (currentFile st)
        else currentFile st in
      mkParse (parsedFiles st) file1 (currentHunk st)
              (hunkContent st ++ [l]) (store st)
  end.

(** One iteration of the loop over the lines. *)
Definition parseStep (st : ParseState) (l : string) : ParseState :=
  if isFileHeader l then openFile st l
  else if isMetadata l then st
  else if isHunkMarker l then openHunk st l
  else contentLine st l.

Definition parseInit : ParseState := mkParse [] None None [] [].

(** A file of the result, its hunks read through their references. *)
Definition resolve (st : list DiffHunk) (f : FileAcc) : DiffFile :=
  mkFile (accPath f) (accAdditions f) (accDeletions f)
         (map (deref st) (accHunks f)).

Definition parseFinish (st : ParseState) : list DiffFile :=
  let st1 := saveFile st in
  map (resolve (store st1)) (parsedFiles st1).

Definition parseLines (ls : list string) : list DiffFile :=
  parseFinish (fold_left parseStep ls parseInit).

Definition parseDiff (diffContent : string) : list DiffFile :=
  parseLines (splitLines diffContent).

(* ================================================================== *)
(** * The regular expressions of the runtime, as far as [matchPattern]
      needs them

    [new RegExp(source)] and [regex.test(input)] without flags, for the
    part of the syntax that is modelled: literal code units, the dot,
    escaped punctuation, the anchors, classes of plain code units, groups,
    alternatives and the greedy quantifiers. A source that uses anything
    else compiles to [Unmodelled], about which nothing is said. *)

Inductive Result (A : Type) : Type :=
| Ok (a : A)
| Throws          (* a [SyntaxError] of [new RegExp] *)
| Unmodelled.     (* syntax that this model leaves out *)
Arguments Ok {A} a.
Arguments Throws {A}.
Arguments Unmodelled {A}.

Definition bind {A B} (r : Result A) (f : A -> Result B) : Result B :=
  match r with
  | Ok a => f a
  | Throws => Throws
  | Unmodelled => Unmodelled
  end.

Inductive Regex : Type :=
| RChar (c : ascii)
| RDot
| RSet (negated : bool) (members : list ascii)
| RBol
| REol
| REmpty
| RSeq (a b : Regex)
| RAlt (a b : Regex)
| RStar (a : Regex)
| RPlus (a : Regex)
| ROpt (a : Regex).

(** A continuation receives whether the position is still the start of the
    input, and the rest of the input. *)
Definition Cont : Type := bool -> string -> bool.

(** The iterations of a star. An iteration that consumes nothing is
    rejected, as the runtime does, so [n] iterations suffice for an input
    of [n] code units. *)
Fixpoint starLoop (m : Cont -> Cont) (k : Cont) (n : nat) (b : bool)
  (s : string) : bool :=
  match n with
  | O => k b s
  | S n' =>
      m (fun b' s' =>
           (String.length s' <? String.length s)%nat && starLoop m k n' b' s')
        b s
      || k b s
  end.

(** Backtracking matcher: does [r] match at the head of [s], with [k]
    accepting what follows. *)
Fixpoint rmatch (r : Regex) (k : Cont) (b : bool) (s : string) : bool :=
  match r with
  | RChar c =>
      match s with
      | String x s' => Ascii.eqb x c && k false s'
      | EmptyString => false
      end
  | RDot =>
      match s with
      | String x s' => negb (isLineTerminator x) && k false s'
      | EmptyString => false
      end
  | RSet negated members =>
      match s with
      | String x s' =>
          xorb negated (existsb (Ascii.eqb x) members) && k false s'
      | EmptyString => false
      end
  | RBol => b && k b s
  | REol =>
      match s with
      | EmptyString => k b s
      | String _ _ => false
      end
  | REmpty => k b s
  | RSeq a c => rmatch a (rmatch c k) b s
  | RAlt a c => rmatch a k b s || rmatch c k b s
  | RStar a => starLoop (rmatch a) k (S (String.length s)) b s
  | RPlus a =>
      rmatch a (fun b' s' =>
                  starLoop (rmatch a) k (S (String.length s')) b' s') b s
  | ROpt a => rmatch a k b s || k b s
  end.

Definition accept : Cont := fun _ _ => true.

(** [regex.test(input)]: a match that starts at some position. *)
Fixpoint searchFrom (r : Regex) (b : bool) (s : string) : bool :=
  rmatch r accept b s
  || match s with
     | String _ s' => searchFrom r false s'
     | EmptyString => false
     end.

Definition test (r : Regex) (input : string) : bool := searchFrom r true input.

(** ** The syntax *)

Inductive CharKind :=
| KBackslash | KOpen | KClose | KBar | KStar | KPlus | KQuestion
| KLBracket | KRBracket | KLBrace | KRBrace | KDot | KCaret | KDollar
| KMinus | KSlash | KLiteral.

Definition classify (c : ascii) : CharKind :=
  if Ascii.eqb c "\" then KBackslash
  else if Ascii.eqb c "(" then KOpen
  else if Ascii.eqb c ")" then KClose
  else if Ascii.eqb c "|" then KBar
  else if Ascii.eqb c "*" then KStar
  else if Ascii.eqb c "+" then KPlus
  else if Ascii.eqb c "?" then KQuestion
  else if Ascii.eqb c "[" then KLBracket
  else if Ascii.eqb c "]" then KRBracket
  else if Ascii.eqb c "{" then KLBrace
  else if Ascii.eqb c "}" then KRBrace
  else if Ascii.eqb c "." then KDot
  else if Ascii.eqb c "^" then KCaret
  else if Ascii.eqb c "$" then KDollar
  else if Ascii.eqb c "-" then KMinus
  else if Ascii.eqb c "/" then KSlash
  else KLiteral.

(** What a quantifier may follow. *)
Inductive TermKind := TAtom | TAssertion | TQuantified.

Definition Term : Type := Regex * TermKind.

(** An alternative under construction, its terms last first, with the
    alternatives of the same group that are complete, last first. *)
Record Frame := mkFrame {
  doneAlts : list Regex;
  terms    : list Term
}.

Inductive Mode :=
| MNormal
| MEscape
| MGroupStart
| MClassStart
| MClass (negated : bool) (members : list ascii).

Record PState := mkP {
  outer : list Frame;   (* the groups that are open, innermost first *)
  top   : Frame;
  mode  : Mode
}.

Fixpoint seqOf (ts : list Regex) : Regex :=
  match ts with
  | [] => REmpty
  | t :: rest => RSeq t (seqOf rest)
  end.

Fixpoint altOf (first : Regex) (others : list Regex) : Regex :=
  match others with
  | [] => first
  | a :: rest => RAlt first (altOf a rest)
  end.

Definition alternative (ts : list Term) : Regex := seqOf (rev (map fst ts)).

(** The disjunction that a frame holds. *)
Definition frameRegex (f : Frame) : Regex :=
  match rev (alternative (terms f) :: doneAlts f) with
  | [] => REmpty
  | a :: rest => altOf a rest
  end.

Definition pushTerm (st : PState) (t : Term) : Result PState :=
  Ok (mkP (outer st) (mkFrame (doneAlts (top st)) (t :: terms (top st)))
          MNormal).

Definition quantify (st : PState) (q : Regex -> Regex) (lazy : bool)
  : Result PState :=
  match terms (top st) with
  | (r, TAtom) :: ts =>
      Ok (mkP (outer st)
              (mkFrame (doneAlts (top st)) ((q r, TQuantified) :: ts))
              MNormal)
  | (_, TQuantified) :: _ => if lazy then Unmodelled else Throws
  | (_, TAssertion) :: _ => Throws
  | [] => Throws
  end.

(** A code unit of the source outside of a class and of an escape. *)
Definition stepNormal (st : PState) (c : ascii) : Result PState :=
  match classify c with
  | KBackslash => Ok (mkP (outer st) (top st) MEscape)
  | KOpen => Ok (mkP (top st :: outer st) (mkFrame [] []) MGroupStart)
  | KClose =>
      match outer st with
      | [] => Throws
      | f :: fs =>
          Ok (mkP fs
                  (mkFrame (doneAlts f) ((frameRegex (top st), TAtom) :: terms f))
                  MNormal)
      end
  | KBar =>
      Ok (mkP (outer st)
              (mkFrame (alternative (terms (top st)) :: doneAlts (top st)) [])
              MNormal)
  | KStar => quantify st RStar false
  | KPlus => quantify st RPlus false
  | KQuestion => quantify st ROpt true
  | KLBracket => Ok (mkP (outer st) (top st) MClassStart)
  | KRBracket | KLBrace | KRBrace => Unmodelled
  | KDot => pushTerm st (RDot, TAtom)
  | KCaret => pushTerm st (RBol, TAssertion)
  | KDollar => pushTerm st (REol, TAssertion)
  | KMinus | KSlash | KLiteral => pushTerm st (RChar c, TAtom)
  end.

Definition stepClass (st : PState) (negated : bool) (members : list ascii)
  (c : ascii) : Result PState :=
  match classify c with
  | KRBracket => pushTerm st (RSet negated (rev members), TAtom)
  | KBackslash | KMinus => Unmodelled
  | _ => Ok (mkP (outer st) (top st) (MClass negated (c :: members)))
  end.

Definition step (st : PState) (c : ascii) : Result PState :=
  match mode st with
  | MNormal => stepNormal st c
  | MEscape =>
      match classify c with
      | KLiteral | KMinus => Unmodelled
      | _ => pushTerm st (RChar c, TAtom)
      end
  | MGroupStart =>
      match classify c with
      | KQuestion => Unmodelled
      | _ => stepNormal st c
      end
  | MClassStart =>
      match classify c with
      | KCaret => Ok (mkP (outer st) (top st) (MClass true []))
      | _ => stepClass st false [] c
      end
  | MClass negated members => stepClass st negated members c
  end.

Fixpoint parseFrom (st : PState) (source : string) : Result PState :=
  match source with
  | EmptyString => Ok st
  | String c rest => bind (step st c) (fun st' => parseFrom st' rest)
  end.

Definition finish (st : PState) : Result Regex :=
  match mode st, outer st with
  | MNormal, [] => Ok (frameRegex (top st))
  | _, _ => Throws
  end.

(** [new RegExp(source)]. *)
Definition RegExp (source : string) : Result Regex :=
  bind (parseFrom (mkP [] (mkFrame [] []) MNormal) source) finish.

(* ================================================================== *)
(** * [matchPattern] and [shouldIgnoreFile] ([src/config.ts], lines
      191-222), [filterFiles] ([src/diff.ts], lines 107-109) *)

(** [s.replace(/pat/g, rep)] for a pattern that is a fixed, non-empty
    string and a replacement without [$]: the occurrences are taken from
    the left and do not overlap. [skip] code units of the occurrence that
    was just replaced are still to be passed over. *)
Fixpoint replaceFrom (pat rep : string) (skip : nat) (s : string) : string :=
  match s with
  | EmptyString => EmptyString
  | String c s' =>
      match skip with
      | S n => replaceFrom pat rep n s'
      | O =>
          if startsWith s pat
          then (rep ++ replaceFrom pat rep (String.length pat - 1) s')%string
          else String c (replaceFrom pat rep 0 s')
      end
  end.

Definition replaceAll (pat rep s : string) : string := replaceFrom pat rep 0 s.

(** The four replacements of lines 209-213, in their order. *)
Definition escapeDots : string -> string := replaceAll "." "\.".
Definition markGlobstars : string -> string := replaceAll "**" "{{GLOBSTAR}}".
Definition expandStars : string -> string := replaceAll "*" "[^/]*".
Definition expandGlobstars : string -> string := replaceAll "{{GLOBSTAR}}" ".*".

Definition globToRegex (pattern : string) : string :=
  expandGlobstars (expandStars (markGlobstars (escapeDots pattern))).

Definition anywhere (pattern : string) : bool :=
  negb (startsWith pattern "**") && negb (startsWith pattern "/").

Definition regexSource (pattern : string) : string :=
  let regexPattern := globToRegex pattern in
  let regexPattern :=
    if anywhere pattern then ("(^|.*/)?" ++ regexPattern)%string
    else regexPattern in
  ("^" ++ regexPattern ++ "$")%string.

Definition matchPattern (filePath pattern : string) : Result bool :=
  bind (RegExp (regexSource pattern)) (fun regex => Ok (test regex filePath)).

(** The two fields of [UserConfig] that the filter reads, both optional. *)
Record UserConfig := mkConfig {
  ignore       : option (list string);
  include_only : option (list string)
}.

(** [patterns.some(pattern => f(pattern))]: it stops at the first pattern
    that gives [true], and at the first that throws. *)
Fixpoint someM (f : string -> Result bool) (patterns : list string)
  : Result bool :=
  match patterns with
  | [] => Ok false
  | x :: rest =>
      bind (f x) (fun hit => if hit then Ok true else someM f rest)
  end.

Definition shouldIgnoreFile (filePath : string) (config : UserConfig)
  : Result bool :=
  let ignored :=
    match ignore config with
    | Some l => l
    | None => []
    end in
  let checkIgnore := someM (matchPattern filePath) ignored in
  match include_only config with
  | Some (p :: ps) =>
      bind (someM (matchPattern filePath) (p :: ps))
           (fun included => if included then checkIgnore else Ok true)
  | _ => checkIgnore
  end.

(** [files.filter(file => !shouldIgnoreFile(file.path, config))]. *)
Fixpoint filterFiles (fs : list DiffFile) (config : UserConfig)
  : Result (list DiffFile) :=
  match fs with
  | [] => Ok []
  | f :: rest =>
      bind (shouldIgnoreFile (path f) config) (fun ignored =>
      bind (filterFiles rest config) (fun kept =>
      Ok (if ignored then kept else f :: kept)))
  end.

(* ================================================================== *)
(** * [splitIntoChunks] ([src/diff.ts], lines 121-174) *)

(** [file.additions + file.deletions], the size of a file in lines. *)
Definition fileSize (f : DiffFile) : Z := additions f + deletions f.

(** The three variables of the loop: [chunks], [currentChunk] and
    [currentSize]. *)
Record SplitState := mkSplit {
  chunks       : list DiffChunk;
  currentChunk : list DiffFile;
  currentSize  : Z
}.

(** [chunks.push({files: currentChunk, totalLines: currentSize});
     currentChunk = []; currentSize = 0]. The pushed array is never
    written again: [currentChunk] is rebound to a new array. *)
Definition closeChunk (st : SplitState) : SplitState :=
  {| chunks := chunks st ++ [mkChunk (currentChunk st) (currentSize st)];
     currentChunk := [];
     currentSize := 0 |}.

Definition nonEmpty {A} (l : list A) : bool := (0 <? List.length l)%nat.

(** One iteration of [for (const file of files)]. *)
Definition splitStep (maxChunkSize : Z) (st : SplitState) (f : DiffFile)
  : SplitState :=
  if maxChunkSize <? fileSize f then
    (* a single file larger than the maximum goes in a chunk of its own *)
    let st1 := if nonEmpty (currentChunk st) then closeChunk st else st in
    {| chunks := chunks st1 ++ [mkChunk [f] (fileSize f)];
       currentChunk := currentChunk st1;
       currentSize := currentSize st1 |}
  else
    let st1 :=
      if (maxChunkSize <? currentSize st + fileSize f)
           && nonEmpty (currentChunk st)
      then closeChunk st else st in
    {| chunks := chunks st1;
       currentChunk := currentChunk st1 ++ [f];
       currentSize := currentSize st1 + fileSize f |}.

Definition splitInit : SplitState := mkSplit [] [] 0.

(** The last chunk is pushed when it is not empty. *)
Definition splitFinish (st : SplitState) : list DiffChunk :=
  if nonEmpty (currentChunk st)
  then chunks st ++ [mkChunk (currentChunk st) (currentSize st)]
  else chunks st.

Definition splitIntoChunks (fs : list DiffFile) (maxChunkSize : Z)
  : list DiffChunk :=
  splitFinish (fold_left (splitStep maxChunkSize) fs splitInit).

(** The default value of the parameter, [maxChunkSize = 3000]. *)
Definition splitIntoChunksDefault (fs : list DiffFile) : list DiffChunk :=
  splitIntoChunks fs 3000.

(** [calculateDiffSize]: the sum of the sizes of the files. *)
Definition calculateDiffSize (fs : list DiffFile) : Z :=
  fold_left (fun total f => total + additions f + deletions f) fs 0.

(* ================================================================== *)
(** * [limitFiles] ([src/diff.ts], lines 198-209) *)

(** [Array.prototype.slice(start, end)]: a negative index counts from the
    end of the array, and both indices are clamped to the array. *)
Definition sliceIndex (len i : Z) : Z :=
  if i <? 0 then Z.max (len + i) 0 else Z.min i len.

Definition slice {A} (l : list A) (start finish : Z) : list A :=
  let len := Z.of_nat (List.length l) in
  let k := sliceIndex len start in
  let e := sliceIndex len finish in
  firstn (Z.to_nat (e - k)) (skipn (Z.to_nat k) l).

(** The comparator of the sort,
    [(a, b) => (b.additions + b.deletions) - (a.additions + a.deletions)]:
    negative when [a] has to come first. *)
Definition bySizeDesc (a b : DiffFile) : Z := fileSize b - fileSize a.

(** [Array.prototype.sort] is a stable sort: with a comparator that is a
    consistent order, as [bySizeDesc] is, its result is the one stable
    arrangement, which insertion from the right computes. [x] stood before
    every element of [l] in the array, so it stays before the first element
    that the comparator does not put in front of it. *)
Fixpoint insertBy (cmp : DiffFile -> DiffFile -> Z) (x : DiffFile)
  (l : list DiffFile) : list DiffFile :=
  match l with
  | [] => [x]
  | y :: t => if cmp x y <=? 0 then x :: y :: t else y :: insertBy cmp x t
  end.

Definition sortBy (cmp : DiffFile -> DiffFile -> Z) (l : list DiffFile)
  : list DiffFile :=
  fold_right (insertBy cmp) [] l.

(** [[...files].sort(...)] sorts a copy: the argument is left as it is. *)
Definition limitFiles (fs : list DiffFile) (maxFiles : Z) : list DiffFile :=
  if Z.of_nat (List.length fs) <=? maxFiles then fs
  else slice (sortBy bySizeDesc fs) 0 maxFiles.

(* ================================================================== *)
(** * [mergeReviewResults] ([src/review.ts], lines 16-59) *)

Definition assessment_eqb (a b : Assessment) : bool :=
  match a, b with
  | approve, approve | request_changes, request_changes
  | comment, comment => true
  | _, _ => false
  end.

(** The loop that determines the verdict, with its [break]. *)
Fixpoint assessLoop (acc : Assessment) (rs : list ReviewResult)
  : Assessment :=
  match rs with
  | [] => acc
  | r :: rest =>
      match overall_assessment r with
      | request_changes => request_changes
      | comment => assessLoop comment rest
      | approve => assessLoop acc rest
      end
  end.

(** [[...new Set(xs)]]: the first occurrence of every string, in order. *)
Fixpoint dedupe (seen : list string) (xs : list string) : list string :=
  match xs with
  | [] => []
  | x :: t =>
      if existsb (String.eqb x) seen then dedupe seen t
      else x :: dedupe (x :: seen) t
  end.

Definition mergeReviewResults (results : list ReviewResult) : ReviewResult :=
  match results with
  | [] => mkResult "No files to review" [] [] approve
  | [r] => r
  | _ =>
      mkResult (String.concat " " (map summary results))
               (flat_map issues results)
               (dedupe [] (flat_map positives results))
               (assessLoop approve results)
  end.

(* ================================================================== *)
(** * Specification-side definitions *)

(** Sizes of the files of a list. *)
Definition sizes (fs : list DiffFile) : list Z := map fileSize fs.

Definition sumSizes (fs : list DiffFile) : Z :=
  fold_right Z.add 0 (sizes fs).

Definition carries (a : Assessment) (rs : list ReviewResult) : bool :=
  existsb (fun r => assessment_eqb (overall_assessment r) a) rs.

(** The verdict of the specification: the most severe one wins. *)
Definition mostSevere (rs : list ReviewResult) : Assessment :=
  if carries request_changes rs then request_changes
  else if carries comment rs then comment
  else approve.

(** Descending order of sizes. *)
Definition sizeGe (a b : DiffFile) : Prop := fileSize b <= fileSize a.

(** The files of one size, in the order of the list. *)
Definition ofSize (z : Z) (fs : list DiffFile) : list DiffFile :=
  filter (fun f => fileSize f =? z) fs.

(** ** The parser *)

Definition sumAdditions (fs : list DiffFile) : Z :=
  fold_right Z.add 0 (map additions fs).

Definition sumDeletions (fs : list DiffFile) : Z :=
  fold_right Z.add 0 (map deletions fs).

(** The number of lines of a class. *)
Definition countLines (p : string -> bool) (ls : list string) : Z :=
  Z.of_nat (List.length (filter p ls)).

Definition isSome {A} (o : option A) : bool :=
  match o with
  | Some _ => true
  | None => false
  end.

(** A line that opens a hunk: it starts with [@@] and the hunk header
    expression matches it. *)
Definition isHunkHeader (l : string) : bool :=
  isHunkMarker l && isSome (matchHunkHeader l).

(** The lines that follow the last file header of [ls], when there is one. *)
Fixpoint afterLastFileHeader (ls : list string) : option (list string) :=
  match ls with
  | [] => None
  | l :: r =>
      match afterLastFileHeader r with
      | Some t => Some t
      | None => if isFileHeader l then Some r else None
      end
  end.

(** The parser holds a hunk when the lines read so far hold a file header
    and, after the last of them, a hunk header: no later line takes the
    hunk away. *)
Definition hunkOpen (before : list string) : bool :=
  match afterLastFileHeader before with
  | Some t => existsb isHunkHeader t
  | None => false
  end.

(** The number of lines of [rest] of a class that the parser reads while
    it holds a hunk, the lines of [before] standing in front of [rest]. *)
Fixpoint countWhileOpen (p : string -> bool) (before rest : list string)
  : Z :=
  match rest with
  | [] => 0
  | l :: r =>
      (if p l && hunkOpen before then 1 else 0)
      + countWhileOpen p (before ++ [l]) r
  end.

(** The last line of [t] that starts with [@@], when there is one. *)
Definition lastMarker (t : list string) : option string :=
  match rev (filter isHunkMarker t) with
  | m :: _ => Some m
  | [] => None
  end.

(** A line is inside a hunk when the lines before it hold a file header
    and, after the last file header, a line that starts with [@@], the
    last of which is a hunk header. The lines that follow a line that
    starts with [@@] without being a hunk header belong to no hunk. *)
Definition insideHunk (before : list string) : bool :=
  match afterLastFileHeader before with
  | Some t =>
      match lastMarker t with
      | Some m => isHunkHeader m
      | None => false
      end
  | None => false
  end.

(** The number of lines of [rest] of a class that are inside a hunk, the
    lines of [before] standing in front of [rest]. *)
Fixpoint countInHunk (p : string -> bool) (before rest : list string) : Z :=
  match rest with
  | [] => 0
  | l :: r =>
      (if p l && insideHunk before then 1 else 0)
      + countInHunk p (before ++ [l]) r
  end.

(** A line that starts with [@@] and is not a hunk header is allowed only
    outside of a hunk. *)
Definition markerOk (before : list string) (l : string) : bool :=
  negb (isHunkMarker l && negb (isHunkHeader l) && hunkOpen before).

(** Every line of [rest] that starts with [@@] and is not a hunk header
    stands outside of a hunk, the lines of [before] standing in front. *)
Fixpoint markersOk (before rest : list string) : bool :=
  match rest with
  | [] => true
  | l :: r => markerOk before l && markersOk (before ++ [l]) r
  end.

(** The diff of the test suite of the parser. *)
Definition sampleDiff : string := joinLines [
  "diff --git a/src/utils.ts b/src/utils.ts";
  "index 1234567..abcdefg 100644";
  "--- a/src/utils.ts";
  "+++ b/src/utils.ts";
  "@@ -10,6 +10,8 @@ export function helper() {";
  "   const x = 1;";
  "+  const y = 2;";
  "+  const z = x + y;";
  "   return x;";
  " }";
  "diff --git a/src/main.ts b/src/main.ts";
  "index 2345678..bcdefgh 100644";
  "--- a/src/main.ts";
  "+++ b/src/main.ts";
  "@@ -1,5 +1,4 @@";
  " import { helper } from './utils';";
  "-import { unused } from './legacy';";
  " ";
  " export function main() {";
  "   return helper();";
  ""].

(** A diff of a file of SQL where the comment line [-- old comment] is
    replaced: the diff writes the removed line with its sign in front. *)
Definition commentDiff : string := joinLines [
  "diff --git a/q.sql b/q.sql";
  "@@ -1,2 +1,2 @@";
  "--- old comment";
  "+-- new comment";
  " select 1;"].

(** A diff whose second hunk header is not one. *)
Definition brokenDiff : string := joinLines [
  "diff --git a/f b/f";
  "@@ -1 +1 @@";
  "+a";
  "@@ bad";
  "+b"].

(** The lines of a hunk that follow its header, up to the next header or
    the end of the input; [skip] tells the lines that are left out. *)
Fixpoint hunkBody (skip : string -> bool) (ls : list string) : list string :=
  match ls with
  | [] => []
  | l :: r =>
      if isFileHeader l then []
      else if skip l then hunkBody skip r
      else if isHunkMarker l then []
      else l :: hunkBody skip r
  end.

(** The texts of the hunks of one file: of the lines up to the next file
    header, every hunk header with its body, joined by line feeds. *)
Fixpoint sectionHunks (skip : string -> bool) (ls : list string)
  : list string :=
  match ls with
  | [] => []
  | l :: r =>
      if isFileHeader l then []
      else if skip l then sectionHunks skip r
      else if isHunkHeader l
           then joinLines (l :: hunkBody skip r) :: sectionHunks skip r
      else sectionHunks skip r
  end.

(** The texts of the hunks of the input, file by file. *)
Fixpoint hunkTexts (skip : string -> bool) (ls : list string)
  : list (list string) :=
  match ls with
  | [] => []
  | l :: r =>
      if isFileHeader l then sectionHunks skip r :: hunkTexts skip r
      else hunkTexts skip r
  end.

(** The contents of the hunks of the files of a result. *)
Definition hunkContents (fs : list DiffFile) : list (list string) :=
  map (fun f => map content (hunks f)) fs.

(** The state of the scan and the lines read so far agree on what is open. *)
Definition agree (st : ParseState) (before : list string) : Prop :=
  isSome (currentFile st) = isSome (afterLastFileHeader before)
  /\ (isSome (currentFile st) = true ->
      isSome (currentHunk st) = hunkOpen before).

Definition accSum (proj : FileAcc -> Z) (st : ParseState) : Z :=
  fold_right Z.add 0 (map proj (parsedFiles st))
  + match currentFile st with
    | Some f => proj f
    | None => 0
    end.

(** No reference that a file holds is the reference of the open hunk, and
    every reference is in the store. *)
Definition refLimit (st : ParseState) : nat :=
  match currentHunk st with
  | Some r => r
  | None => List.length (store st)
  end.

Definition refsBelow (n : nat) (f : FileAcc) : Prop :=
  Forall (fun r => (r < n)%nat) (accHunks f).

Definition storeInv (st : ParseState) : Prop :=
  (refLimit st <= List.length (store st))%nat
  /\ (forall r, currentHunk st = Some r -> (r < List.length (store st))%nat)
  /\ Forall (refsBelow (refLimit st)) (parsedFiles st)
  /\ (forall f, currentFile st = Some f -> refsBelow (refLimit st) f).

(** The contents of the hunks of a file under construction. *)
Definition accContents (st : list DiffHunk) (f : FileAcc) : list string :=
  map (fun r => content (deref st r)) (accHunks f).

(** What the scan will still add to the result from the state [st] on the
    lines [rest]. *)
Definition openPart (skip : string -> bool) (st : ParseState)
  (rest : list string) : list string :=
  match currentHunk st with
  | Some _ => [joinLines (hunkContent st ++ hunkBody skip rest)]
  | None => []
  end.

Definition expected (skip : string -> bool) (st : ParseState)
  (rest : list string) : list (list string) :=
  map (accContents (store st)) (parsedFiles st)
  ++ match currentFile st with
     | Some f =>
         [accContents (store st) f ++ openPart skip st rest
          ++ sectionHunks skip rest]
     | None => []
     end
  ++ hunkTexts skip rest.

(** ** The file filter: what the translated patterns accept *)

(** The four replacements of [matchPattern] read a pattern as a sequence
    of tokens; the definitions below say which paths the expression built
    from the tokens accepts, when the pattern holds nothing else of the
    syntax of regular expressions. *)
Inductive GlobToken :=
| GLit (c : ascii)      (* a code unit that stands for itself *)
| GStar                 (* one star: within one segment *)
| GGlobstar.            (* two stars: across segments *)

(** Two stars are read before one, from the left. *)
Fixpoint tokenize (pattern : string) : list GlobToken :=
  match pattern with
  | EmptyString => []
  | String c rest =>
      if Ascii.eqb c "*" then
        match rest with
        | String c' rest' =>
            if Ascii.eqb c' "*" then GGlobstar :: tokenize rest'
            else GStar :: tokenize rest
        | EmptyString => GStar :: tokenize rest
        end
      else GLit c :: tokenize rest
  end.

(** Some run of code units of the class [p] at the head of [s] is followed
    by a rest that [k] accepts. *)
Fixpoint anyRun (p : ascii -> bool) (k : string -> bool) (s : string) : bool :=
  k s
  || match s with
     | String x s' => p x && anyRun p k s'
     | EmptyString => false
     end.

Definition notSeparator (c : ascii) : bool := negb (Ascii.eqb c "/").

(** The whole of [s] is accepted by the tokens: a literal by itself, a star
    by any run without a separator, two stars by any run of code units,
    which is what [.*] accepts. *)
Fixpoint runMatch (toks : list GlobToken) (s : string) : bool :=
  match toks with
  | [] =>
      match s with
      | EmptyString => true
      | String _ _ => false
      end
  | GLit c :: rest =>
      match s with
      | String x s' => Ascii.eqb x c && runMatch rest s'
      | EmptyString => false
      end
  | GStar :: rest => anyRun notSeparator (runMatch rest) s
  | GGlobstar :: rest => anyRun (fun _ => true) (runMatch rest) s
  end.

(** The tokens match what follows some separator of [s]. *)
Fixpoint matchAfterSeparator (toks : list GlobToken) (s : string) : bool :=
  match s with
  | EmptyString => false
  | String x s' =>
      (Ascii.eqb x "/" && runMatch toks s') || matchAfterSeparator toks s'
  end.

(** The expression accepts a path as a whole; for a pattern that does not
    begin with two stars or a separator, also from behind any separator
    on. *)
Definition runMatches (filePath pattern : string) : bool :=
  runMatch (tokenize pattern) filePath
  || (anywhere pattern && matchAfterSeparator (tokenize pattern) filePath).

Definition listOr (o : option (list string)) : list string :=
  match o with
  | Some l => l
  | None => []
  end.

(** The files that the filter drops, by what the expressions accept. *)
Definition runDropped (config : UserConfig) (filePath : string) : bool :=
  (nonEmpty (listOr (include_only config))
   && negb (existsb (runMatches filePath) (listOr (include_only config))))
  || existsb (runMatches filePath) (listOr (ignore config)).

Definition filterRuns (fs : list DiffFile) (config : UserConfig)
  : list DiffFile :=
  filter (fun f => negb (runDropped config (path f))) fs.

(** The code units that a pattern can hold without meeting the syntax of
    regular expressions: all but [\ ^ $ + ? ( ) [ ] { } |]. *)
Definition plainChar (c : ascii) : bool :=
  match classify c with
  | KLiteral | KMinus | KSlash | KDot | KStar => true
  | _ => false
  end.

Fixpoint allChars (p : ascii -> bool) (s : string) : bool :=
  match s with
  | EmptyString => true
  | String c s' => p c && allChars p s'
  end.

Definition plainPattern (pattern : string) : bool := allChars plainChar pattern.

Definition noLineBreak (s : string) : bool :=
  allChars (fun c => negb (isLineTerminator c)) s.

Definition patternsOf (config : UserConfig) : list string :=
  listOr (include_only config) ++ listOr (ignore config).

(** The regular expression of a token, and what the four replacements
    write for it. *)
Definition tokenRegex (t : GlobToken) : Regex :=
  match t with
  | GLit c => RChar c
  | GStar => RStar (RSet true ["/"%char])
  | GGlobstar => RStar RDot
  end.

Definition tokenSource (t : GlobToken) : string :=
  match t with
  | GLit c => if Ascii.eqb c "." then "\." else String c EmptyString
  | GStar => "[^/]*"
  | GGlobstar => ".*"
  end.

Fixpoint tokensSource (toks : list GlobToken) : string :=
  match toks with
  | [] => EmptyString
  | t :: rest => (tokenSource t ++ tokensSource rest)%string
  end.

(** The group that the source starts with when the pattern may match
    anywhere. *)
Definition anywhereRegex : Regex :=
  ROpt (RAlt (RSeq RBol REmpty)
             (RSeq (RStar RDot) (RSeq (RChar "/") REmpty))).

(** The regular expression that [new RegExp] builds for a pattern. *)
Definition patternRegex (pattern : string) : Regex :=
  seqOf (RBol
         :: (if anywhere pattern then [anywhereRegex] else [])
         ++ map tokenRegex (tokenize pattern) ++ [REol]).

(** The term that the parser of expressions builds for a token. *)
Definition termOf (t : GlobToken) : Term :=
  (tokenRegex t,
   match t with
   | GLit _ => TAtom
   | _ => TQuantified
   end).

(** The tokens of a plain pattern: a literal is plain and is not a star. *)
Definition okToken (t : GlobToken) : bool :=
  match t with
  | GLit c => plainChar c && negb (Ascii.eqb c "*")
  | _ => true
  end.

(** A star over a class of single code units: any run of the class. *)
Fixpoint classRun (p : ascii -> bool) (k : Cont) (b : bool) (s : string)
  : bool :=
  k b s
  || match s with
     | String x s' => p x && classRun p k false s'
     | EmptyString => false
     end.

(** ** The file filter: the glob patterns of the specification *)

(** The segments of a path or of a pattern: the texts between its
    separators. *)
Fixpoint segments (s : string) : list string :=
  match s with
  | EmptyString => [EmptyString]
  | String c r =>
      if Ascii.eqb c "/" then EmptyString :: segments r
      else match segments r with
           | seg :: more => String c seg :: more
           | [] => [String c EmptyString]
           end
  end.

(** One segment of a pattern against one segment of a path: a star
    matches any run of code units of the segment, every other code unit,
    the dot among them, matches itself. *)
Fixpoint segmentMatch (pattern s : string) : bool :=
  match pattern with
  | EmptyString =>
      match s with
      | EmptyString => true
      | String _ _ => false
      end
  | String c pattern' =>
      if Ascii.eqb c "*" then anyRun (fun _ => true) (segmentMatch pattern') s
      else match s with
           | String x s' => Ascii.eqb x c && segmentMatch pattern' s'
           | EmptyString => false
           end
  end.

(** The segments of a pattern against the segments of a path: the segment
    of two stars matches zero or more segments of the path, any other
    segment of the pattern matches one segment. The specification says
    nothing of two stars inside of a longer segment; there they are read
    as stars of the segment. *)
Fixpoint globMatch (pattern segs : list string) : bool :=
  match pattern with
  | [] =>
      match segs with
      | [] => true
      | _ :: _ => false
      end
  | p :: rest =>
      if String.eqb p "**" then
        (fix skip (l : list string) : bool :=
           globMatch rest l
           || match l with
              | [] => false
              | _ :: t => skip t
              end) segs
      else match segs with
           | s :: t => segmentMatch p s && globMatch rest t
           | [] => false
           end
  end.

(** The lists of segments that start at a boundary inside of the path. *)
Fixpoint laterStarts (segs : list string) : list (list string) :=
  match segs with
  | [] => []
  | _ :: t => t :: laterStarts t
  end.

(** A pattern matches a path as a whole; a pattern that begins neither
    with two stars nor with a separator may also match from any segment
    boundary of the path on. *)
Definition globMatches (filePath pattern : string) : bool :=
  globMatch (segments pattern) (segments filePath)
  || (negb (startsWith pattern "**") && negb (startsWith pattern "/")
      && existsb (globMatch (segments pattern))
                 (laterStarts (segments filePath))).

(** The policy of the filter. *)
Definition dropped (config : UserConfig) (filePath : string) : bool :=
  (nonEmpty (listOr (include_only config))
   && negb (existsb (globMatches filePath) (listOr (include_only config))))
  || existsb (globMatches filePath) (listOr (ignore config)).

Definition filterSpec (fs : list DiffFile) (config : UserConfig)
  : list DiffFile :=
  filter (fun f => negb (dropped config (path f))) fs.

(** The configuration and the files of the test suite of the filter. *)
Definition sampleConfig : UserConfig :=
  mkConfig (Some ["*.min.js"; "**/node_modules/**"; "package-lock.json"]) None.

Definition sampleFiles : list DiffFile :=
  [mkFile "src/app.ts" 10 5 [];
   mkFile "dist/bundle.min.js" 100 0 [];
   mkFile "package-lock.json" 500 200 []].

(** A pattern with a directory whose name is in parentheses, and two
    files. *)
Definition groupConfig : UserConfig := mkConfig (Some ["app/(admin)/**"]) None.

Definition groupFiles : list DiffFile :=
  [mkFile "app/(admin)/page.tsx" 1 0 []; mkFile "app/admin/page.tsx" 1 0 []].

(** A file of a package at the top of the repository and one further
    down. *)
Definition packageFiles : list DiffFile :=
  [mkFile "node_modules/x.js" 1 0 []; mkFile "web/node_modules/x.js" 1 0 []].

(** No path that the scan holds has a line break. *)
Definition pathsOk (st : ParseState) : Prop :=
  Forall (fun f => noLineBreak (accPath f) = true) (parsedFiles st)
  /\ (forall f, currentFile st = Some f -> noLineBreak (accPath f) = true).

(** What the loop of [splitIntoChunks] keeps true: the chunks closed so far
    followed by the open one are the files read so far. *)
Definition covered (st : SplitState) : list DiffFile :=
  flat_map files (chunks st) ++ currentChunk st.

(** A chunk is within the bound, or it is one oversized file alone. *)
Definition chunkOk (maxChunkSize : Z) (c : DiffChunk) : Prop :=
  totalLines c = sumSizes (files c) /\
  files c <> [] /\
  (totalLines c <= maxChunkSize \/
   exists f, files c = [f] /\ maxChunkSize < fileSize f).

Definition splitInv (maxChunkSize : Z) (st : SplitState) : Prop :=
  Forall (chunkOk maxChunkSize) (chunks st) /\
  currentSize st = sumSizes (currentChunk st) /\
  (currentChunk st <> [] -> currentSize st <= maxChunkSize).

(* ================================================================== *)
(** * Further functions of the repository *)

(** ** [countCriticalIssues] ([src/review.ts], lines 165-167) *)

Definition severity_eqb (a b : Severity) : bool :=
  match a, b with
  | sev_critical, sev_critical | sev_warning, sev_warning
  | sev_suggestion, sev_suggestion => true
  | _, _ => false
  end.

Definition isCritical (i : ReviewIssue) : bool :=
  severity_eqb (severity i) sev_critical.

Definition countCriticalIssues (result : ReviewResult) : Z :=
  Z.of_nat (List.length (filter isCritical (issues result))).

(** ** [getLineNumber] ([src/diff.ts], lines 214-226) *)

(** The loop [for (let i = 1; i <= changeIndex && i < lines.length; i++)]:
    [rest] holds the lines from index [i] on, so the second test fails
    when [rest] is empty. *)
Fixpoint lineLoop (rest : list string) (i changeIndex lineNumber : Z) : Z :=
  match rest with
  | [] => lineNumber
  | l :: rest' =>
      if i <=? changeIndex
      then lineLoop rest' (i + 1) changeIndex
                    (if startsWith l "-" then lineNumber else lineNumber + 1)
      else lineNumber
  end.

Definition getLineNumber (hunk : DiffHunk) (changeIndex : Z) : Z :=
  lineLoop (tl (splitLines (content hunk))) 1 changeIndex (newStart hunk).

(** The lines of a hunk after its header that are not removed lines. *)
Definition keptLine (l : string) : bool := negb (startsWith l "-").

Definition hunkBodyLines (hunk : DiffHunk) : list string :=
  tl (splitLines (content hunk)).

(** ** [determineProvider] ([src/config.ts], lines 50-88) and
       [createAIClient] ([src/ai/index.ts], lines 11-49) *)

Inductive AIProvider := openai | anthropic | grok | gemini | ollama.

(** A call that returns or throws an [Error] with a message. *)
Inductive Outcome (A : Type) : Type :=
| Returns (a : A)
| Raises (message : string).
Arguments Returns {A} a.
Arguments Raises {A} message.

(** An optional string as a condition: [undefined] and the empty string
    are false. *)
Definition truthy (k : option string) : bool :=
  match k with
  | Some EmptyString => false
  | Some _ => true
  | None => false
  end.

(** [s.includes(sub)]. *)
Fixpoint includes (s sub : string) : bool :=
  startsWith s sub
  || match s with
     | String _ s' => includes s' sub
     | EmptyString => false
     end.

Definition determineProvider (model : string)
  (openaiKey anthropicKey grokKey geminiKey ollamaUrl : option string)
  : Outcome AIProvider :=
  if startsWith model "gpt-" || startsWith model "o1"
     || startsWith model "codex" then
    if truthy openaiKey then Returns openai
    else Raises "OpenAI API key required for GPT/Codex models"
  else if startsWith model "claude-" then
    if truthy anthropicKey then Returns anthropic
    else Raises "Anthropic API key required for Claude models"
  else if startsWith model "grok-" then
    if truthy grokKey then Returns grok
    else Raises "Grok API key required for Grok models"
  else if startsWith model "gemini-" then
    if truthy geminiKey then Returns gemini
    else Raises "Gemini API key required for Gemini models"
  else if startsWith model "ollama/" || includes model ":" then
    if truthy ollamaUrl then Returns ollama
    else Raises "Ollama URL required for local models"
  else if truthy openaiKey then Returns openai
  else if truthy anthropicKey then Returns anthropic
  else if truthy grokKey then Returns grok
  else if truthy geminiKey then Returns gemini
  else if truthy ollamaUrl then Returns ollama
  else Raises
    "No AI provider configured. Please provide at least one API key.".

(** The fields of [ActionConfig] that [createAIClient] reads; the user
    configuration is handed on to the client as it is. *)
Record ActionConfig := mkAction {
  openaiApiKey    : option string;
  anthropicApiKey : option string;
  grokApiKey      : option string;
  geminiApiKey    : option string;
  ollamaUrl       : option string;
  provider        : AIProvider;
  model           : string;
  userConfig      : UserConfig
}.

(** The client that [createAIClient] constructs: which class, with which
    credential, model and user configuration. The constructors belong to
    the provider modules and are not entered. *)
Inductive ClientRequest :=
| NewClient (p : AIProvider) (credential : string) (model : string)
            (config : UserConfig).

Definition requireKey (p : AIProvider) (key : option string)
  (message : string) (config : ActionConfig) : Outcome ClientRequest :=
  if truthy key
  then match key with
       | Some k => Returns (NewClient p k (model config) (userConfig config))
       | None => Raises message
       end
  else Raises message.

Definition createAIClient (config : ActionConfig) : Outcome ClientRequest :=
  match provider config with
  | openai =>
      requireKey openai (openaiApiKey config) "OpenAI API key is required"
                 config
  | anthropic =>
      requireKey anthropic (anthropicApiKey config)
                 "Anthropic API key is required" config
  | grok =>
      requireKey grok (grokApiKey config) "Grok API key is required" config
  | gemini =>
      requireKey gemini (geminiApiKey config) "Gemini API key is required"
                 config
  | ollama =>
      requireKey ollama (ollamaUrl config) "Ollama URL is required" config
  end.

(** The credential of a provider among the five inputs. *)
Definition credentialOf (p : AIProvider)
  (openaiKey anthropicKey grokKey geminiKey ollamaUrl : option string)
  : option string :=
  match p with
  | openai => openaiKey
  | anthropic => anthropicKey
  | grok => grokKey
  | gemini => geminiKey
  | ollama => ollamaUrl
  end.

(** ** Specification-side definitions for the further functions *)

Definition sumTotalLines (cs : list DiffChunk) : Z :=
  fold_right Z.add 0 (map totalLines cs).

Definition sumCritical (rs : list ReviewResult) : Z :=
  fold_right Z.add 0 (map countCriticalIssues rs).

(** The path that a file header line gives to its file. *)
Definition headerPath (l : string) : string :=
  match matchFileHeader l with
  | Some p => p
  | None => EmptyString
  end.

(** The paths of the files that the scan holds, the open one last. *)
Definition heldPaths (st : ParseState) : list string :=
  map accPath (parsedFiles st)
  ++ match currentFile st with
     | Some f => [accPath f]
     | None => []
     end.

Definition kept (config : UserConfig) (f : DiffFile) : Prop :=
  shouldIgnoreFile (path f) config = Ok false.

(** ** [filesToDiffString] ([src/diff.ts], lines 179-193) *)

(** What one file pushes to [parts]: three header lines and the content of
    every hunk. *)
Definition fileParts (f : DiffFile) : list string :=
  [("diff --git a/" ++ path f ++ " b/" ++ path f)%string;
   ("--- a/" ++ path f)%string;
   ("+++ b/" ++ path f)%string]
  ++ map content (hunks f).

Definition filesToDiffString (fs : list DiffFile) : string :=
  joinLines (flat_map fileParts fs).

(** ** The scan of [parseDiff] with hunks as values

    What the scan computes when every hunk object is pushed once: the
    hunks are values, a hunk gets its content when it is closed. The scan
    of [parseDiff] with its store is related to this one in the theorems
    below. *)

Record VState := mkV {
  vFiles   : list DiffFile;
  vFile    : option DiffFile;
  vHunk    : option DiffHunk;
  vContent : list string
}.

Definition withContent (h : DiffHunk) (text : string) : DiffHunk :=
  mkHunk (oldStart h) (oldLines h) (newStart h) (newLines h) text.

Definition closeHunkV (f : DiffFile) (h : DiffHunk) (hc : list string)
  : DiffFile :=
  mkFile (path f) (additions f) (deletions f)
         (hunks f ++ [withContent h (joinLines hc)]).

(** The open file with its open hunk closed. *)
Definition pendingV (st : VState) : option DiffFile :=
  match vFile st with
  | None => None
  | Some f =>
      Some match vHunk st with
           | Some h => closeHunkV f h (vContent st)
           | None => f
           end
  end.

Definition saveFileV (st : VState) : list DiffFile :=
  vFiles st
  ++ match pendingV st with
     | Some f => [f]
     | None => []
     end.

Definition bumpV (l : string) (f : DiffFile) : DiffFile :=
  if isAddition l
  then mkFile (path f) (additions f + 1) (deletions f) (hunks f)
  else if isDeletion l
       then mkFile (path f) (additions f) (deletions f + 1) (hunks f)
       else f.

Definition stepV (st : VState) (l : string) : VState :=
  if isFileHeader l then
    mkV (saveFileV st) (Some (mkFile (headerPath l) 0 0 [])) None []
  else if isMetadata l then st
  else if isHunkMarker l then
    let file1 :=
      match vHunk st, vFile st with
      | Some h, Some f => Some (closeHunkV f h (vContent st))
      | _, _ => vFile st
      end in
    match matchHunkHeader l with
    | Some m => mkV (vFiles st) file1 (Some (newHunk m)) [l]
    | None => mkV (vFiles st) file1 (vHunk st) [l]
    end
  else
    match vHunk st with
    | None => st
    | Some _ =>
        mkV (vFiles st) (option_map (bumpV l) (vFile st)) (vHunk st)
            (vContent st ++ [l])
    end.

Definition initV : VState := mkV [] None None [].

Definition parseLinesV (ls : list string) : list DiffFile :=
  saveFileV (fold_left stepV ls initV).

(** The state of the scan of [parseDiff], its references followed. *)
Definition absState (st : ParseState) : VState :=
  mkV (map (resolve (store st)) (parsedFiles st))
      (option_map (resolve (store st)) (currentFile st))
      (option_map (deref (store st)) (currentHunk st))
      (hunkContent st).

(** A line that starts with [@@] without being a hunk header does not
    come while a hunk of a file is open. *)
Definition noStray (st : ParseState) (l : string) : Prop :=
  isHunkMarker l = true -> matchHunkHeader l = None ->
  currentHunk st = None \/ currentFile st = None.

(** ** Well-formed file records *)

Definition noLF (s : string) : bool :=
  allChars (fun c => negb (Ascii.eqb c LF)) s.

Definition hunkLines (h : DiffHunk) : list string := splitLines (content h).

(** A line of the body of a hunk: the parser takes it for content. *)
Definition contentLineOk (l : string) : bool :=
  negb (isFileHeader l) && negb (isMetadata l) && negb (isHunkMarker l).

Definition sameFields (h g : DiffHunk) : bool :=
  (oldStart h =? oldStart g) && (oldLines h =? oldLines g)
  && (newStart h =? newStart g) && (newLines h =? newLines g).

(** The first line of the content is a hunk header that gives the four
    numbers of the hunk, and the other lines are content lines. *)
Definition wfHunk (h : DiffHunk) : bool :=
  match hunkLines h with
  | hd :: body =>
      isHunkMarker hd
      && match matchHunkHeader hd with
         | Some m => sameFields h (newHunk m)
         | None => false
         end
      && forallb contentLineOk body
  | [] => false
  end.

Definition countIn (p : string -> bool) (h : DiffHunk) : Z :=
  countLines p (tl (hunkLines h)).

Definition sumIn (p : string -> bool) (hs : list DiffHunk) : Z :=
  fold_right Z.add 0 (map (countIn p) hs).

Definition wfPath (p : string) : bool :=
  noLineBreak p && negb (includes p " b/").

(** The record of a file as the parser builds it: a path that a file
    header can carry, well-formed hunks, and counters that count the added
    and the removed lines of the hunks. *)
Definition wfFile (f : DiffFile) : bool :=
  wfPath (path f) && forallb wfHunk (hunks f)
  && (additions f =? sumIn isAddition (hunks f))
  && (deletions f =? sumIn isDeletion (hunks f)).

(** Every line that starts with [@@] is a hunk header. *)
Definition markersWellFormed (ls : list string) : bool :=
  forallb (fun l => negb (isHunkMarker l) || isHunkHeader l) ls.

(** The lines that [filesToDiffString] writes for a file. *)
Definition headerLine (p : string) : string :=
  ("diff --git a/" ++ p ++ " b/" ++ p)%string.

Definition fileLines (f : DiffFile) : list string :=
  [headerLine (path f); ("--- a/" ++ path f)%string;
   ("+++ b/" ++ path f)%string]
  ++ flat_map hunkLines (hunks f).

(** A file with more counted lines and more hunks. *)
Definition extendFile (f : DiffFile) (adds dels : Z) (hs : list DiffHunk)
  : DiffFile :=
  mkFile (path f) (additions f + adds) (deletions f + dels) (hunks f ++ hs).

(** ** What the scan with values keeps true *)

(** The lines of the open hunk that are counted so far. *)
Definition openCount (p : string -> bool) (st : VState) : Z :=
  match vHunk st with
  | Some _ => countLines p (tl (vContent st))
  | None => 0
  end.

(** The open file is well formed but for the lines of the open hunk,
    which its counters already count. *)
Definition fileOk (st : VState) : Prop :=
  forall f, vFile st = Some f ->
    wfPath (path f) = true /\ forallb wfHunk (hunks f) = true
    /\ additions f = sumIn isAddition (hunks f) + openCount isAddition st
    /\ deletions f = sumIn isDeletion (hunks f) + openCount isDeletion st.

(** The open hunk of an open file holds its header and content lines. *)
Definition openOk (st : VState) : Prop :=
  forall f h, vFile st = Some f -> vHunk st = Some h ->
    exists hd body m,
      vContent st = hd :: body /\ isHunkMarker hd = true
      /\ matchHunkHeader hd = Some m /\ h = newHunk m
      /\ forallb contentLineOk body = true
      /\ forallb noLF (hd :: body) = true.

Definition wfV (st : VState) : Prop :=
  forallb wfFile (vFiles st) = true /\ fileOk st /\ openOk st.

Definition strayFree (st : VState) (l : string) : Prop :=
  isHunkMarker l = true -> matchHunkHeader l = None ->
  vHunk st = None \/ vFile st = None.

(** ** [processChunk] and [performReview] ([src/review.ts], lines 64-160)

    The calls of [core.info], [core.warning] and [core.error] write to the
    log of the action and do not reach the result; they are left out. *)

(** A count in a template string. *)
Definition natToString (n : nat) : string :=
  NilEmpty.string_of_uint (Nat.to_uint n).

(** [client.review(diff, customPrompt)]: it returns a result or throws;
    the message of [Raises] is the text that the thrown value has in a
    template string. *)
Definition Review : Type := string -> option string -> Outcome ReviewResult.

(** A client may answer differently at every call: its calls are
    numbered, from 0 on. *)
Definition AIClient : Type := nat -> Review.

Definition chunkPrompt (chunk : DiffChunk) (chunkIndex totalChunks : nat)
  : option string :=
  if (1 <? totalChunks)%nat then
    Some ("This is part " ++ natToString (chunkIndex + 1) ++ " of "
          ++ natToString totalChunks ++ " of the code changes. "
          ++ "Review this part independently. Files in this chunk: "
          ++ String.concat ", " (map path (files chunk)))%string
  else None.

Definition processChunk (review : Review) (chunk : DiffChunk)
  (chunkIndex totalChunks : nat) : Outcome ReviewResult :=
  review (filesToDiffString (files chunk))
         (chunkPrompt chunk chunkIndex totalChunks).

(** The issue that stands for a chunk whose review has failed. *)
Definition errorIssue (chunk : DiffChunk) (error : string) : ReviewIssue :=
  mkIssue sev_warning documentation
          match files chunk with
          | f :: _ => path f
          | [] => EmptyString
          end
          0 "Review Error"
          ("Failed to get AI review for this chunk: " ++ error)%string None.

Definition errorResult (chunk : DiffChunk) (i : nat) (error : string)
  : ReviewResult :=
  mkResult ("Failed to review chunk " ++ natToString (i + 1))%string
           [errorIssue chunk error] [] comment.

(** The loop over the chunks, from the chunk of index [i] on: the client
    is called once for every chunk, and a call that throws is caught. *)
Fixpoint reviewLoop (client : AIClient) (totalChunks i : nat)
  (chunks : list DiffChunk) : list ReviewResult :=
  match chunks with
  | [] => []
  | c :: rest =>
      match processChunk (client i) c i totalChunks with
      | Returns r => r
      | Raises error => errorResult c i error
      end :: reviewLoop client totalChunks (S i) rest
  end.

(** The two limits of [UserConfig] that [performReview] reads, both
    optional; they are fields of the same object as the patterns. *)
Record UserLimits := mkLimits {
  max_files     : option Z;
  max_diff_size : option Z
}.

Definition maxFilesOf (limits : UserLimits) : Z :=
  match max_files limits with
  | Some n => n
  | None => 20
  end.

Definition maxDiffSizeOf (limits : UserLimits) : Z :=
  match max_diff_size limits with
  | Some n => n
  | None => 5000
  end.

(** Lines 109-113: the files are limited when they are too many. *)
Definition limitStage (limits : UserLimits) (fs : list DiffFile)
  : list DiffFile :=
  if maxFilesOf limits <? Z.of_nat (List.length fs)
  then limitFiles fs (maxFilesOf limits)
  else fs.

(** Lines 120-121: the chunks that are handed to the client. *)
Definition chunkStage (limits : UserLimits) (fs : list DiffFile)
  : list DiffChunk :=
  splitIntoChunks (limitStage limits fs) (maxDiffSizeOf limits).

Definition noFilesResult : ReviewResult :=
  mkResult "No files to review after applying filters" [] [] approve.

(** [performReview]. [newClient] stands for [createAIClient(config)],
    which is evaluated only when some file is left after filtering. The
    result is [Throws] when a pattern of the filter is refused by
    [new RegExp], and [Ok (Raises _)] when the client cannot be created. *)
Definition performReview (userConfig : UserConfig) (limits : UserLimits)
  (newClient : Outcome AIClient) (rawDiff : string)
  : Result (Outcome ReviewResult) :=
  bind (filterFiles (parseDiff rawDiff) userConfig) (fun fs =>
  match fs with
  | [] => Ok (Returns noFilesResult)
  | _ :: _ =>
      match newClient with
      | Raises message => Ok (Raises message)
      | Returns client =>
          let chunks := chunkStage limits fs in
          Ok (Returns (mergeReviewResults
                         (reviewLoop client (List.length chunks) 0 chunks)))
      end
  end).

(** ** [formatShortSummary] ([src/formatter.ts], lines 178-195) *)

Definition countSeverity (s : Severity) (result : ReviewResult) : nat :=
  List.length (filter (fun i => severity_eqb (severity i) s) (issues result)).

Definition summaryPart (count : nat) (label : string) : list string :=
  if (0 <? count)%nat then [(natToString count ++ label)%string] else [].

Definition formatShortSummary (result : ReviewResult) : string :=
  let criticalCount := countSeverity sev_critical result in
  let warningCount := countSeverity sev_warning result in
  let suggestionCount := countSeverity sev_suggestion result in
  let parts := summaryPart criticalCount " critical"
               ++ summaryPart warningCount " warnings"
               ++ summaryPart suggestionCount " suggestions" in
  match parts with
  | [] => "No issues found"
  | _ :: _ => ("Found: " ++ String.concat ", " parts)%string
  end.

(** ** [issuesToInlineComments] ([src/github.ts], lines 175-192)

    The texts hold characters outside ASCII; a string of the model holds
    their bytes in UTF-8. No function of the model measures or indexes
    these texts. *)

Module Inline.
Record InlineComment := mk {
  path : string;
  line : Z;
  body : string
}.
End Inline.

(** [getSeverityEmoji] (lines 197-208): its [default] case is for a text
    that is none of the three severities, which the type [Severity] does
    not have. *)
Definition getSeverityEmoji (s : Severity) : string :=
  match s with
  | sev_critical => "🔴"
  | sev_warning => "🟡"
  | sev_suggestion => "🟢"
  end.

(** [issue.file && issue.line > 0] *)
Definition located (issue : ReviewIssue) : bool :=
  match file issue with
  | EmptyString => false
  | String _ _ => 0 <? line issue
  end.

Definition toInlineComment (issue : ReviewIssue) : Inline.InlineComment :=
  let emoji := getSeverityEmoji (severity issue) in
  let body := (emoji ++ " **" ++ title issue ++ "**" ++ String LF (String LF "")
               ++ description issue)%string in
  Inline.mk (file issue) (line issue)
    (if truthy (suggestion issue) then
       match suggestion issue with
       | Some s => (body ++ String LF (String LF "")
                    ++ "💡 **Suggestion:** " ++ s)%string
       | None => body
       end
     else body).

Definition issuesToInlineComments (l : list ReviewIssue)
  : list Inline.InlineComment :=
  map toInlineComment (filter located l).

(* ================================================================== *)
(** * Theorems *)

(** ** The chunk partitioner *)

Section Split.
Variable maxChunkSize : Z.

Lemma flat_map_snoc {A B} (f : A -> list B) l x :
  flat_map f (l ++ [x]) = flat_map f l ++ f x.
Proof.
  rewrite flat_map_app. simpl. now rewrite app_nil_r.
Qed.

Lemma nonEmpty_false {A} (l : list A) : nonEmpty l = false -> l = [].
Proof.
  destruct l; [reflexivity | discriminate].
Qed.

Lemma nonEmpty_true {A} (l : list A) : nonEmpty l = true -> l <> [].
Proof.
  destruct l; [discriminate | intros _ E; discriminate E].
Qed.

Lemma splitStep_covered st f :
  covered (splitStep maxChunkSize st f) = covered st ++ [f].
Proof.
  unfold splitStep, covered.
  destruct (maxChunkSize <? fileSize f).
  - destruct (nonEmpty (currentChunk st)) eqn:E; simpl.
    + rewrite !flat_map_snoc. simpl. now rewrite !app_nil_r.
    + rewrite flat_map_snoc. simpl.
      rewrite (nonEmpty_false _ E). now rewrite !app_nil_r.
  - destruct ((maxChunkSize <? currentSize st + fileSize f)
              && nonEmpty (currentChunk st)); simpl.
    + rewrite flat_map_snoc. reflexivity.
    + now rewrite app_assoc.
Qed.

Lemma fold_covered fs : forall st,
  covered (fold_left (splitStep maxChunkSize) fs st) = covered st ++ fs.
Proof.
  induction fs as [|f fs IH]; intro st; simpl.
  - now rewrite app_nil_r.
  - rewrite IH, splitStep_covered, <- app_assoc. reflexivity.
Qed.

Lemma splitFinish_covered st :
  flat_map files (splitFinish st) = covered st.
Proof.
  unfold splitFinish, covered.
  destruct (nonEmpty (currentChunk st)) eqn:E.
  - rewrite flat_map_snoc. reflexivity.
  - rewrite (nonEmpty_false _ E). now rewrite app_nil_r.
Qed.

Lemma sumSizes_snoc l f : sumSizes (l ++ [f]) = sumSizes l + fileSize f.
Proof.
  unfold sumSizes, sizes. induction l as [|x l IH]; simpl; [lia|].
  rewrite IH. lia.
Qed.

Lemma closeChunk_ok st :
  (splitInv maxChunkSize) st -> currentChunk st <> [] -> Forall (chunkOk maxChunkSize) (chunks (closeChunk st)).
Proof.
  intros (Hc & Hs & Hb) Hne. unfold closeChunk; simpl.
  apply Forall_app; split; [assumption|].
  constructor; [|constructor].
  unfold chunkOk; simpl. repeat split; auto.
Qed.

Lemma splitStep_inv st f : (splitInv maxChunkSize) st -> (splitInv maxChunkSize) (splitStep maxChunkSize st f).
Proof.
  intros Hinv. pose proof Hinv as (Hc & Hs & Hb).
  unfold splitStep.
  destruct (maxChunkSize <? fileSize f) eqn:Ebig.
  - apply Z.ltb_lt in Ebig.
    assert (Hone : (chunkOk maxChunkSize) (mkChunk [f] (fileSize f))).
    { unfold chunkOk; simpl. repeat split.
      - unfold sumSizes; simpl; lia.
      - discriminate.
      - right. exists f. split; [reflexivity | assumption]. }
    destruct (nonEmpty (currentChunk st)) eqn:E.
    + split; [|split]; simpl.
      * apply Forall_app; split.
        -- apply closeChunk_ok; [assumption | now apply nonEmpty_true].
        -- constructor; [assumption | constructor].
      * reflexivity.
      * intros H; contradiction H; reflexivity.
    + split; [|split]; simpl.
      * apply Forall_app; split; [assumption|].
        constructor; [assumption | constructor].
      * assumption.
      * assumption.
  - apply Z.ltb_ge in Ebig.
    destruct ((maxChunkSize <? currentSize st + fileSize f)
              && nonEmpty (currentChunk st)) eqn:E.
    + apply andb_prop in E as [_ E].
      split; [|split]; simpl.
      * apply closeChunk_ok; [assumption | now apply nonEmpty_true].
      * unfold sumSizes; simpl; lia.
      * intros _. lia.
    + split; [|split]; simpl.
      * assumption.
      * rewrite sumSizes_snoc. lia.
      * intros _. apply andb_false_iff in E as [E|E].
        -- apply Z.ltb_ge in E. assumption.
        -- rewrite (nonEmpty_false _ E) in Hs. unfold sumSizes in Hs.
           simpl in Hs. lia.
Qed.

Lemma fold_inv fs : forall st,
  (splitInv maxChunkSize) st -> (splitInv maxChunkSize) (fold_left (splitStep maxChunkSize) fs st).
Proof.
  induction fs as [|f fs IH]; intros st H; simpl; [assumption|].
  apply IH, splitStep_inv, H.
Qed.

Lemma splitFinish_ok st : (splitInv maxChunkSize) st -> Forall (chunkOk maxChunkSize) (splitFinish st).
Proof.
  intros Hinv. pose proof Hinv as (Hc & Hs & Hb). unfold splitFinish.
  destruct (nonEmpty (currentChunk st)) eqn:E; [|assumption].
  apply (closeChunk_ok st Hinv). now apply nonEmpty_true.
Qed.

Lemma splitIntoChunks_ok fs : Forall (chunkOk maxChunkSize) (splitIntoChunks fs maxChunkSize).
Proof.
  apply splitFinish_ok, fold_inv.
  repeat split; simpl; try constructor. intros H; contradiction H; reflexivity.
Qed.
End Split.

Lemma length_chunks (cs : list DiffChunk) :
  fold_right (fun c n => (List.length (files c) + n)%nat) 0%nat cs
  = List.length (flat_map files cs).
Proof.
  induction cs as [|c cs IH]; simpl; [reflexivity|].
  rewrite length_app, IH. reflexivity.
Qed.

(** C2. The files of the chunks of [splitIntoChunks], taken chunk after
    chunk, are the input list: no file is dropped, none is repeated, and
    the order is kept within a chunk and from chunk to chunk. *)
Theorem splitIntoChunks_covers (fs : list DiffFile) (maxChunkSize : Z) :
  flat_map files (splitIntoChunks fs maxChunkSize) = fs
  /\ fold_right (fun c n => (List.length (files c) + n)%nat) 0%nat
       (splitIntoChunks fs maxChunkSize) = List.length fs.
Proof.
  assert (H : flat_map files (splitIntoChunks fs maxChunkSize) = fs).
  { unfold splitIntoChunks. rewrite splitFinish_covered, fold_covered.
    reflexivity. }
  split; [exact H|].
  rewrite length_chunks, H. reflexivity.
Qed.

(** C3. A chunk of [splitIntoChunks] with more than one file has at most
    [maxChunkSize] lines, and a chunk with more lines than that is one
    file alone, itself larger than [maxChunkSize]. *)
Theorem splitIntoChunks_bound (fs : list DiffFile) (maxChunkSize : Z) :
  Forall (fun c =>
            totalLines c = sumSizes (files c) /\
            ((1 < List.length (files c))%nat -> totalLines c <= maxChunkSize) /\
            (maxChunkSize < totalLines c ->
             exists f, files c = [f] /\ maxChunkSize < fileSize f))
         (splitIntoChunks fs maxChunkSize).
Proof.
  eapply Forall_impl; [|apply (splitIntoChunks_ok maxChunkSize)].
  intros c (Ht & _ & [Hle | (f & Hf & Hbig)]).
  - split; [exact Ht|]. split; [intros _; exact Hle | intros; lia].
  - split; [exact Ht|]. split.
    + rewrite Hf; simpl; lia.
    + intros _. exists f. split; assumption.
Qed.

Lemma splitIntoChunks_bound_witness :
  let small := mkFile "a.ts" 30 20 [] in
  let medium := mkFile "b.ts" 40 20 [] in
  let large := mkFile "c.ts" 200 100 [] in
  splitIntoChunks [small; medium; large] 200
  = [mkChunk [small; medium] 110; mkChunk [large] 300]
  /\ (110 <= 200)
  /\ (exists f, [large] = [f] /\ 200 < fileSize f).
Proof.
  intros small medium large.
  pose proof (splitIntoChunks_bound [small; medium; large] 200) as H.
  change (splitIntoChunks [small; medium; large] 200)
    with [mkChunk [small; medium] 110; mkChunk [large] 300] in H.
  inversion H as [|c1 cs1 (_ & Hmany & _) H1]; subst.
  inversion H1 as [|c2 cs2 (_ & _ & Hbig) _]; subst.
  split; [reflexivity|]. split.
  - apply Hmany. simpl. lia.
  - apply Hbig. simpl. lia.
Defined.

(** C10. No chunk of [splitIntoChunks] has an empty list of files. *)
Theorem splitIntoChunks_nonempty (fs : list DiffFile) (maxChunkSize : Z) :
  Forall (fun c => files c <> [] /\ (0 < List.length (files c))%nat)
         (splitIntoChunks fs maxChunkSize).
Proof.
  eapply Forall_impl; [|apply (splitIntoChunks_ok maxChunkSize)].
  intros c (_ & Hne & _). split; [exact Hne|].
  destruct (files c); [contradiction Hne; reflexivity | simpl; lia].
Qed.

(** ** The file limiter *)

Lemma insertBy_perm cmp x l : Permutation (insertBy cmp x l) (x :: l).
Proof.
  induction l as [|y t IH]; simpl; [reflexivity|].
  destruct (cmp x y <=? 0); [reflexivity|].
  rewrite IH. apply perm_swap.
Qed.

Lemma sortBy_perm cmp l : Permutation (sortBy cmp l) l.
Proof.
  induction l as [|x l IH]; simpl; [reflexivity|].
  rewrite insertBy_perm. now constructor.
Qed.

Lemma sortBy_length cmp l : List.length (sortBy cmp l) = List.length l.
Proof.
  apply Permutation_length, sortBy_perm.
Qed.

Lemma insertBy_sorted x l :
  StronglySorted sizeGe l -> StronglySorted sizeGe (insertBy bySizeDesc x l).
Proof.
  induction l as [|y t IH]; intros Hs; simpl.
  - constructor; constructor.
  - inversion Hs as [|? ? Ht Hy]; subst.
    destruct (bySizeDesc x y <=? 0) eqn:E.
    + apply Z.leb_le in E. unfold bySizeDesc in E.
      constructor; [assumption|].
      constructor; [unfold sizeGe; lia|].
      eapply Forall_impl; [|exact Hy]. unfold sizeGe. intros; lia.
    + apply Z.leb_gt in E. unfold bySizeDesc in E.
      constructor; [auto|].
      eapply Permutation_Forall; [symmetry; apply insertBy_perm|].
      constructor; [unfold sizeGe; lia | assumption].
Qed.

Lemma sortBy_sorted l : StronglySorted sizeGe (sortBy bySizeDesc l).
Proof.
  induction l as [|x l IH]; simpl; [constructor|].
  now apply insertBy_sorted.
Qed.

Lemma insertBy_stable z x l :
  ofSize z (insertBy bySizeDesc x l) = ofSize z (x :: l).
Proof.
  induction l as [|y t IH]; [reflexivity|].
  simpl insertBy.
  destruct (bySizeDesc x y <=? 0) eqn:E; [reflexivity|].
  apply Z.leb_gt in E. unfold bySizeDesc in E.
  unfold ofSize in *. simpl in *. rewrite IH.
  destruct (fileSize x =? z) eqn:Ex, (fileSize y =? z) eqn:Ey;
    try reflexivity.
  apply Z.eqb_eq in Ex, Ey. lia.
Qed.

Lemma sortBy_stable z l : ofSize z (sortBy bySizeDesc l) = ofSize z l.
Proof.
  induction l as [|x l IH]; [reflexivity|].
  simpl sortBy. rewrite insertBy_stable.
  unfold ofSize in *. simpl. now rewrite IH.
Qed.

Lemma slice_prefix {A} (l : list A) n :
  0 <= n -> slice l 0 n = firstn (Z.to_nat n) l.
Proof.
  intros Hn. unfold slice, sliceIndex. simpl.
  destruct (n <? 0) eqn:E; [apply Z.ltb_lt in E; lia|].
  rewrite (Z.min_l 0) by lia. simpl. rewrite Z.sub_0_r.
  destruct (Z.min_spec n (Z.of_nat (List.length l))) as [[H ->]|[H ->]].
  - reflexivity.
  - rewrite Nat2Z.id, firstn_all.
    rewrite firstn_all2; [reflexivity | lia].
Qed.

Lemma limitFiles_over fs n :
  0 <= n < Z.of_nat (List.length fs) ->
  limitFiles fs n = firstn (Z.to_nat n) (sortBy bySizeDesc fs).
Proof.
  intros H. unfold limitFiles.
  destruct (Z.of_nat (List.length fs) <=? n) eqn:E;
    [apply Z.leb_le in E; lia|].
  apply slice_prefix. lia.
Qed.

Lemma limitFiles_under fs n :
  Z.of_nat (List.length fs) <= n -> limitFiles fs n = fs.
Proof.
  intros H. unfold limitFiles.
  destruct (Z.of_nat (List.length fs) <=? n) eqn:E;
    [reflexivity | apply Z.leb_gt in E; lia].
Qed.

(** C8, as the code has it. [limitFiles] is idempotent for every limit that
    is not negative. *)
Theorem limitFiles_idempotent (fs : list DiffFile) (n : Z) :
  0 <= n -> limitFiles (limitFiles fs n) n = limitFiles fs n.
Proof.
  intros Hn.
  destruct (Z_le_gt_dec (Z.of_nat (List.length fs)) n) as [H|H].
  - rewrite (limitFiles_under fs n H). apply limitFiles_under, H.
  - apply limitFiles_under.
    rewrite limitFiles_over by lia.
    rewrite length_firstn, sortBy_length. lia.
Qed.

Lemma limitFiles_idempotent_witness :
  let fs := [mkFile "a.ts" 5 2 []; mkFile "b.ts" 100 50 [];
             mkFile "c.ts" 30 15 []] in
  limitFiles (limitFiles fs 2) 2 = limitFiles fs 2.
Proof.
  intro fs. apply (limitFiles_idempotent fs 2). lia.
Defined.

(** C8, as it is stated, fails for a negative limit: [slice(0, -1)] drops
    the last file of whatever it is given, at every call. *)
Lemma limitFiles_not_idempotent :
  let fs := [mkFile "a.ts" 1 0 []; mkFile "b.ts" 2 0 []] in
  limitFiles fs (-1) = [mkFile "b.ts" 2 0 []]
  /\ limitFiles (limitFiles fs (-1)) (-1) = []
  /\ limitFiles (limitFiles fs (-1)) (-1) <> limitFiles fs (-1).
Proof.
  repeat split. discriminate.
Qed.

(** C9, as the code has it. A list within the limit is returned as it is.
    A list longer than a limit that is not negative is cut to exactly
    [maxFiles] files: the front of the stable arrangement of the input by
    descending size, so that every file left out is at most as large as
    every file returned. With sizes 7, 150 and 45 in any order and a limit
    of 2, the files of sizes 150 and 45 are returned. *)
Theorem limitFiles_spec (fs : list DiffFile) (maxFiles : Z) :
  (Z.of_nat (List.length fs) <= maxFiles -> limitFiles fs maxFiles = fs)
  /\ (0 <= maxFiles < Z.of_nat (List.length fs) ->
      exists rest,
        Z.of_nat (List.length (limitFiles fs maxFiles)) = maxFiles
        /\ Permutation (limitFiles fs maxFiles ++ rest) fs
        /\ StronglySorted sizeGe (limitFiles fs maxFiles ++ rest)
        /\ (forall z, ofSize z (limitFiles fs maxFiles ++ rest) = ofSize z fs)
        /\ Forall (fun kept =>
                     Forall (fun out => fileSize out <= fileSize kept) rest)
                  (limitFiles fs maxFiles))
  /\ (Permutation (sizes fs) [7; 150; 45] ->
      sizes (limitFiles fs 2) = [150; 45]).
Proof.
  split; [apply limitFiles_under|]. split.
  - intros H. rewrite limitFiles_over by assumption.
    exists (skipn (Z.to_nat maxFiles) (sortBy bySizeDesc fs)).
    assert (Hs := sortBy_sorted fs).
    rewrite <- (firstn_skipn (Z.to_nat maxFiles) (sortBy bySizeDesc fs)) in Hs.
    split; [|split; [|split; [|split]]].
    + rewrite length_firstn, sortBy_length. lia.
    + rewrite firstn_skipn. apply sortBy_perm.
    + exact Hs.
    + intros z. rewrite firstn_skipn. apply sortBy_stable.
    + revert Hs.
      generalize (firstn (Z.to_nat maxFiles) (sortBy bySizeDesc fs)) as front.
      generalize (skipn (Z.to_nat maxFiles) (sortBy bySizeDesc fs)) as back.
      intros back front. induction front as [|x front IH]; simpl; intros Hs.
      * constructor.
      * inversion Hs as [|? ? Ht Hx]; subst. constructor; [|auto].
        apply Forall_app in Hx as [_ Hx]. exact Hx.
  - intros Hp.
    assert (Hlen := Permutation_length Hp). unfold sizes in Hlen.
    rewrite length_map in Hlen.
    destruct fs as [|a [|b [|c [|d fs]]]]; try discriminate Hlen.
    assert (Ha : In (fileSize a) [7; 150; 45])
      by (eapply Permutation_in; [exact Hp | simpl; auto]).
    assert (Hb : In (fileSize b) [7; 150; 45])
      by (eapply Permutation_in; [exact Hp | simpl; auto]).
    assert (Hc : In (fileSize c) [7; 150; 45])
      by (eapply Permutation_in; [exact Hp | simpl; auto]).
    assert (H7 : In 7 (sizes [a; b; c]))
      by (eapply Permutation_in; [symmetry; exact Hp | simpl; auto]).
    assert (H150 : In 150 (sizes [a; b; c]))
      by (eapply Permutation_in; [symmetry; exact Hp | simpl; auto]).
    assert (H45 : In 45 (sizes [a; b; c]))
      by (eapply Permutation_in; [symmetry; exact Hp | simpl; auto]).
    unfold sizes in H7, H150, H45. simpl in Ha, Hb, Hc, H7, H150, H45.
    assert (Hcases :
      (fileSize a = 7 /\ fileSize b = 150 /\ fileSize c = 45) \/
      (fileSize a = 7 /\ fileSize b = 45 /\ fileSize c = 150) \/
      (fileSize a = 150 /\ fileSize b = 7 /\ fileSize c = 45) \/
      (fileSize a = 150 /\ fileSize b = 45 /\ fileSize c = 7) \/
      (fileSize a = 45 /\ fileSize b = 7 /\ fileSize c = 150) \/
      (fileSize a = 45 /\ fileSize b = 150 /\ fileSize c = 7)) by lia.
    clear Hp Hlen Ha Hb Hc H7 H150 H45.
    unfold limitFiles, sortBy, sizes, bySizeDesc, fileSize in *.
    destruct Hcases as [(Ea & Eb & Ec)|[(Ea & Eb & Ec)|[(Ea & Eb & Ec)|
                       [(Ea & Eb & Ec)|[(Ea & Eb & Ec)|(Ea & Eb & Ec)]]]]];
      cbn; repeat (progress (rewrite ?Ea, ?Eb, ?Ec; cbn));
      change (Pos.to_nat 2) with 2%nat; cbn; rewrite ?Ea, ?Eb, ?Ec;
      reflexivity.
Qed.

Lemma limitFiles_spec_witness :
  let fs := [mkFile "small.ts" 5 2 []; mkFile "large.ts" 100 50 [];
             mkFile "medium.ts" 30 15 []] in
  limitFiles fs 3 = fs
  /\ (exists rest,
        Z.of_nat (List.length (limitFiles fs 2)) = 2
        /\ Permutation (limitFiles fs 2 ++ rest) fs
        /\ StronglySorted sizeGe (limitFiles fs 2 ++ rest)
        /\ (forall z, ofSize z (limitFiles fs 2 ++ rest) = ofSize z fs)
        /\ Forall (fun kept =>
                     Forall (fun out => fileSize out <= fileSize kept) rest)
                  (limitFiles fs 2))
  /\ sizes (limitFiles fs 2) = [150; 45].
Proof.
  intro fs. split; [|split].
  - apply (proj1 (limitFiles_spec fs 3)). simpl. lia.
  - apply (proj1 (proj2 (limitFiles_spec fs 2))). simpl. lia.
  - apply (proj2 (proj2 (limitFiles_spec fs 2))).
    unfold sizes, fileSize; simpl. reflexivity.
Defined.

(** C9, as it is stated, fails for a negative limit: two files are more
    than -1 files, and one file is returned, not -1 of them. *)
Lemma limitFiles_negative_count :
  let fs := [mkFile "a.ts" 1 0 []; mkFile "b.ts" 2 0 []] in
  -1 < Z.of_nat (List.length fs)
  /\ Z.of_nat (List.length (limitFiles fs (-1))) = 1
  /\ Z.of_nat (List.length (limitFiles fs (-1))) <> -1.
Proof.
  repeat split. discriminate.
Qed.

(** ** The result merger *)

Lemma assessLoop_spec rs : forall acc,
  assessLoop acc rs =
  if carries request_changes rs then request_changes
  else if carries comment rs then comment else acc.
Proof.
  unfold carries.
  induction rs as [|r rs IH]; intro acc; simpl; [reflexivity|].
  destruct (overall_assessment r); simpl.
  - apply IH.
  - reflexivity.
  - rewrite IH. destruct (existsb _ rs); [reflexivity|].
    destruct (existsb _ rs); reflexivity.
Qed.

(** C4. For a list of results that is not empty, the merged verdict is
    [request_changes] when some result carries it, otherwise [comment]
    when some result carries it, otherwise [approve]. *)
Theorem mergeReviewResults_assessment (results : list ReviewResult) :
  results <> [] ->
  overall_assessment (mergeReviewResults results) = mostSevere results.
Proof.
  intros Hne. unfold mostSevere.
  destruct results as [|r [|r' rs]]; [contradiction Hne; reflexivity| |].
  - unfold carries; simpl. destruct (overall_assessment r); reflexivity.
  - unfold mergeReviewResults. cbn [overall_assessment].
    apply assessLoop_spec.
Qed.

Lemma mergeReviewResults_assessment_witness :
  overall_assessment
    (mergeReviewResults [mkResult "a" [] [] approve;
                         mkResult "b" [] [] request_changes;
                         mkResult "c" [] [] comment])
  = request_changes.
Proof.
  apply (mergeReviewResults_assessment
           [mkResult "a" [] [] approve; mkResult "b" [] [] request_changes;
            mkResult "c" [] [] comment]).
  discriminate.
Defined.

(** ** The parser: what is counted *)

Lemma afterLastFileHeader_snoc before l :
  afterLastFileHeader (before ++ [l]) =
  if isFileHeader l then Some []
  else option_map (fun t => t ++ [l]) (afterLastFileHeader before).
Proof.
  induction before as [|x before IH]; simpl.
  - destruct (isFileHeader l); reflexivity.
  - rewrite IH. destruct (isFileHeader l); [reflexivity|].
    destruct (afterLastFileHeader before); simpl; [reflexivity|].
    destruct (isFileHeader x); reflexivity.
Qed.

Lemma hunkOpen_snoc before l :
  hunkOpen (before ++ [l]) =
  if isFileHeader l then false
  else isSome (afterLastFileHeader before)
       && (hunkOpen before || isHunkHeader l).
Proof.
  unfold hunkOpen. rewrite afterLastFileHeader_snoc.
  destruct (isFileHeader l); [reflexivity|].
  destruct (afterLastFileHeader before); simpl; [|reflexivity].
  rewrite existsb_app. simpl. now rewrite orb_false_r.
Qed.

(** The first code unit of a line decides between the classes. *)
Ltac first_unit :=
  match goal with
  | |- context [Ascii.eqb ?c ?k] =>
      is_var c; destruct (Ascii.eqb c k) eqn:?;
      [ match goal with
        | H : Ascii.eqb c k = true |- _ => apply Ascii.eqb_eq in H; subst c
        end
      | ]
  | H : context [Ascii.eqb ?c ?k] |- _ =>
      is_var c; destruct (Ascii.eqb c k) eqn:?;
      [ match goal with
        | H : Ascii.eqb c k = true |- _ => apply Ascii.eqb_eq in H; subst c
        end
      | ]
  end.

Lemma startsWith_empty s : startsWith s EmptyString = true.
Proof. destruct s; reflexivity. Qed.

Ltac by_first_unit l :=
  unfold isAddition, isDeletion, isFileHeader, isMetadata, isHunkMarker,
    isHunkHeader in *;
  destruct l as [|? l]; simpl in *;
  [ try discriminate; auto
  | repeat (first_unit; simpl in *; try discriminate; auto);
    rewrite ?startsWith_empty in *; simpl in * ].

Lemma metadata_not_marker l : isMetadata l = true -> isHunkMarker l = false.
Proof. by_first_unit l; auto; discriminate. Qed.

Lemma addition_class l :
  isAddition l = true ->
  isFileHeader l = false /\ isMetadata l = false /\ isHunkMarker l = false
  /\ isDeletion l = false.
Proof.
  intros H. by_first_unit l; try discriminate.
  repeat split; try reflexivity.
  destruct (startsWith l "++"); [discriminate H | reflexivity].
Qed.

Lemma deletion_class l :
  isDeletion l = true ->
  isFileHeader l = false /\ isMetadata l = false /\ isHunkMarker l = false
  /\ isAddition l = false.
Proof.
  intros H. by_first_unit l; try discriminate.
  repeat split; try reflexivity.
  destruct (startsWith l "--"); [discriminate H | reflexivity].
Qed.

Lemma saveFile_sum proj st :
  (forall f r, proj (pushHunk f r) = proj f) ->
  fold_right Z.add 0 (map proj (parsedFiles (saveFile st))) = accSum proj st.
Proof.
  intros Hp. unfold saveFile, accSum.
  destruct (currentFile st) as [f|]; [|simpl; lia].
  destruct (currentHunk st); simpl; rewrite map_app, fold_right_app; simpl;
    rewrite ?Hp;
    generalize (map proj (parsedFiles st)) as zs;
    induction zs as [|z zs IH]; simpl; lia.
Qed.

Lemma parseFinish_sum (proj : FileAcc -> Z) (obs : DiffFile -> Z) st :
  (forall f r, proj (pushHunk f r) = proj f) ->
  (forall h f, obs (resolve h f) = proj f) ->
  fold_right Z.add 0 (map obs (parseFinish st)) = accSum proj st.
Proof.
  intros Hp Ho. unfold parseFinish.
  rewrite <- (saveFile_sum proj st Hp).
  rewrite map_map. f_equal. apply map_ext. intros f. apply Ho.
Qed.

Lemma openFile_agree st before l :
  isFileHeader l = true -> agree (openFile st l) (before ++ [l]).
Proof.
  intros Hl. unfold agree, openFile. simpl.
  rewrite hunkOpen_snoc, afterLastFileHeader_snoc, Hl. split; reflexivity.
Qed.

Lemma keep_agree st st' before l :
  isFileHeader l = false ->
  isSome (currentFile st') = isSome (currentFile st) ->
  isSome (currentHunk st') = (isSome (currentHunk st) || isHunkHeader l) ->
  agree st before -> agree st' (before ++ [l]).
Proof.
  intros Hl Hf Hh [A1 A2]. unfold agree.
  rewrite hunkOpen_snoc, afterLastFileHeader_snoc, Hl, Hf, Hh.
  split.
  - rewrite A1. destruct (afterLastFileHeader before); reflexivity.
  - intros Hopen. rewrite (A2 Hopen), <- A1, Hopen. reflexivity.
Qed.

Lemma parseStep_agree st before l :
  agree st before -> agree (parseStep st l) (before ++ [l]).
Proof.
  intros Ha. unfold parseStep.
  destruct (isFileHeader l) eqn:Hfh; [now apply openFile_agree|].
  destruct (isMetadata l) eqn:Hmd.
  - apply (keep_agree st); auto.
    unfold isHunkHeader. rewrite (metadata_not_marker l Hmd).
    now rewrite orb_false_r.
  - destruct (isHunkMarker l) eqn:Hmk.
    + apply (keep_agree st); auto.
      * unfold openHunk.
        destruct (currentHunk st), (currentFile st), (matchHunkHeader l);
          reflexivity.
      * unfold openHunk, isHunkHeader. rewrite Hmk.
        destruct (currentHunk st), (currentFile st), (matchHunkHeader l);
          reflexivity.
    + apply (keep_agree st); auto.
      * unfold contentLine. destruct (currentHunk st); [|reflexivity].
        simpl. destruct (isAddition l), (isDeletion l), (currentFile st);
          reflexivity.
      * unfold contentLine, isHunkHeader. rewrite Hmk.
        destruct (currentHunk st) eqn:Hh; simpl; [|rewrite Hh]; reflexivity.
Qed.

(** One step of the scan adds one to the counter exactly on a line of the
    class that is inside a hunk. *)
Lemma parseStep_additions st before l :
  agree st before ->
  accSum accAdditions (parseStep st l) =
  accSum accAdditions st + (if isAddition l && hunkOpen before then 1 else 0).
Proof.
  intros [A1 A2]. unfold parseStep.
  destruct (isAddition l) eqn:Hadd.
  - destruct (addition_class l Hadd) as (-> & -> & -> & _).
    unfold contentLine, accSum. simpl.
    destruct (currentFile st) as [f|] eqn:Hf; simpl in *.
    + rewrite <- (A2 eq_refl).
      destruct (currentHunk st); simpl; rewrite ?Hadd, ?Hf; simpl; lia.
    + unfold hunkOpen. destruct (afterLastFileHeader before);
        [discriminate A1|].
      destruct (currentHunk st); simpl; rewrite ?Hadd, ?Hf; simpl; lia.
  - simpl. rewrite Z.add_0_r.
    destruct (isFileHeader l).
    { unfold openFile, saveFile, accSum.
      destruct (currentFile st) as [f|]; [|simpl; lia].
      destruct (currentHunk st); simpl; rewrite map_app, fold_right_app;
        simpl; generalize (map accAdditions (parsedFiles st)) as zs;
        induction zs as [|z zs IH]; simpl; lia. }
    destruct (isMetadata l); [reflexivity|].
    destruct (isHunkMarker l).
    { unfold openHunk, accSum.
      destruct (currentHunk st), (currentFile st), (matchHunkHeader l);
        reflexivity. }
    unfold contentLine, accSum.
    destruct (currentHunk st); [|reflexivity]. simpl. rewrite Hadd.
    destruct (isDeletion l), (currentFile st); reflexivity.
Qed.

Lemma parseStep_deletions st before l :
  agree st before ->
  accSum accDeletions (parseStep st l) =
  accSum accDeletions st + (if isDeletion l && hunkOpen before then 1 else 0).
Proof.
  intros [A1 A2]. unfold parseStep.
  destruct (isDeletion l) eqn:Hdel.
  - destruct (deletion_class l Hdel) as (-> & -> & -> & Hadd).
    unfold contentLine, accSum. simpl.
    destruct (currentFile st) as [f|] eqn:Hf; simpl in *.
    + rewrite <- (A2 eq_refl).
      destruct (currentHunk st); simpl; rewrite ?Hadd, ?Hdel, ?Hf; simpl; lia.
    + unfold hunkOpen. destruct (afterLastFileHeader before);
        [discriminate A1|].
      destruct (currentHunk st); simpl; rewrite ?Hadd, ?Hdel, ?Hf; simpl; lia.
  - simpl. rewrite Z.add_0_r.
    destruct (isFileHeader l).
    { unfold openFile, saveFile, accSum.
      destruct (currentFile st) as [f|]; [|simpl; lia].
      destruct (currentHunk st); simpl; rewrite map_app, fold_right_app;
        simpl; generalize (map accDeletions (parsedFiles st)) as zs;
        induction zs as [|z zs IH]; simpl; lia. }
    destruct (isMetadata l); [reflexivity|].
    destruct (isHunkMarker l).
    { unfold openHunk, accSum.
      destruct (currentHunk st), (currentFile st), (matchHunkHeader l);
        reflexivity. }
    unfold contentLine, accSum.
    destruct (currentHunk st); [|reflexivity]. simpl. rewrite Hdel.
    destruct (isAddition l), (currentFile st); reflexivity.
Qed.

Lemma scan_additions rest : forall st before,
  agree st before ->
  accSum accAdditions (fold_left parseStep rest st) =
  accSum accAdditions st + countWhileOpen isAddition before rest.
Proof.
  induction rest as [|l rest IH]; intros st before Ha; simpl; [lia|].
  rewrite (IH _ (before ++ [l])) by now apply parseStep_agree.
  rewrite (parseStep_additions st before l Ha). lia.
Qed.

Lemma scan_deletions rest : forall st before,
  agree st before ->
  accSum accDeletions (fold_left parseStep rest st) =
  accSum accDeletions st + countWhileOpen isDeletion before rest.
Proof.
  induction rest as [|l rest IH]; intros st before Ha; simpl; [lia|].
  rewrite (IH _ (before ++ [l])) by now apply parseStep_agree.
  rewrite (parseStep_deletions st before l Ha). lia.
Qed.

Lemma agree_init : agree parseInit [].
Proof. split; [reflexivity | discriminate]. Qed.

(** The counters of the parser count the lines it reads while it holds a
    hunk. *)
Lemma parseDiff_counts_open (diffContent : string) :
  sumAdditions (parseDiff diffContent)
  = countWhileOpen isAddition [] (splitLines diffContent)
  /\ sumDeletions (parseDiff diffContent)
     = countWhileOpen isDeletion [] (splitLines diffContent).
Proof.
  unfold sumAdditions, sumDeletions, parseDiff, parseLines. split.
  - rewrite (parseFinish_sum accAdditions additions) by reflexivity.
    rewrite (scan_additions _ parseInit []) by apply agree_init.
    reflexivity.
  - rewrite (parseFinish_sum accDeletions deletions) by reflexivity.
    rewrite (scan_deletions _ parseInit []) by apply agree_init.
    reflexivity.
Qed.

Lemma lastMarker_snoc t l :
  lastMarker (t ++ [l]) = if isHunkMarker l then Some l else lastMarker t.
Proof.
  unfold lastMarker. rewrite filter_app, rev_app_distr. cbn [filter].
  destruct (isHunkMarker l); reflexivity.
Qed.

Lemma insideHunk_snoc before l :
  insideHunk (before ++ [l]) =
  if isFileHeader l then false
  else if isHunkMarker l
       then isSome (afterLastFileHeader before) && isHunkHeader l
       else insideHunk before.
Proof.
  unfold insideHunk. rewrite afterLastFileHeader_snoc.
  destruct (isFileHeader l); [reflexivity|].
  destruct (afterLastFileHeader before) as [t|]; cbn [option_map isSome].
  - rewrite lastMarker_snoc. destruct (isHunkMarker l); reflexivity.
  - destruct (isHunkMarker l); reflexivity.
Qed.

(** As long as no line that starts with [@@] without being a hunk header
    stands where the parser holds a hunk, the parser holds a hunk exactly
    inside of a hunk. *)
Lemma insideHunk_open before l :
  markerOk before l = true ->
  insideHunk before = hunkOpen before ->
  insideHunk (before ++ [l]) = hunkOpen (before ++ [l]).
Proof.
  intros Hok Heq. rewrite insideHunk_snoc, hunkOpen_snoc, Heq.
  destruct (isFileHeader l); [reflexivity|].
  assert (Hf : hunkOpen before = true ->
               isSome (afterLastFileHeader before) = true).
  { unfold hunkOpen. destruct (afterLastFileHeader before);
      [reflexivity | discriminate]. }
  assert (Hh : isHunkMarker l = false -> isHunkHeader l = false).
  { unfold isHunkHeader. intros ->. reflexivity. }
  unfold markerOk in Hok.
  destruct (isHunkMarker l), (isHunkHeader l), (hunkOpen before),
    (isSome (afterLastFileHeader before));
    cbn in *; try reflexivity; try discriminate;
    solve [ specialize (Hf eq_refl); discriminate
          | specialize (Hh eq_refl); discriminate ].
Qed.

Lemma countInHunk_open p rest : forall before,
  markersOk before rest = true ->
  insideHunk before = hunkOpen before ->
  countInHunk p before rest = countWhileOpen p before rest.
Proof.
  induction rest as [|l rest IH]; intros before Hok Heq; [reflexivity|].
  cbn [markersOk] in Hok. apply andb_prop in Hok as [Hl Hrest].
  cbn [countInHunk countWhileOpen]. rewrite Heq.
  rewrite (IH (before ++ [l]) Hrest (insideHunk_open before l Hl Heq)).
  reflexivity.
Qed.

(** C1, as the code has it. In a diff where no line that starts with [@@]
    without being a hunk header stands inside a hunk, the additions of the
    files of [parseDiff] sum to the number of lines that start with [+],
    not with [+++], and stand inside a hunk: after a file header and,
    later than the last file header, a line that starts with [@@], the
    last of which is a hunk header. The same holds of the deletions and
    [-]. *)
Theorem parseDiff_counts (diffContent : string) :
  markersOk [] (splitLines diffContent) = true ->
  sumAdditions (parseDiff diffContent)
  = countInHunk isAddition [] (splitLines diffContent)
  /\ sumDeletions (parseDiff diffContent)
     = countInHunk isDeletion [] (splitLines diffContent).
Proof.
  intros Hok.
  rewrite !(countInHunk_open _ _ [] Hok eq_refl).
  exact (parseDiff_counts_open diffContent).
Qed.

Lemma parseDiff_counts_witness :
  sumAdditions (parseDiff sampleDiff)
  = countInHunk isAddition [] (splitLines sampleDiff)
  /\ sumDeletions (parseDiff sampleDiff)
     = countInHunk isDeletion [] (splitLines sampleDiff).
Proof.
  apply (parseDiff_counts sampleDiff). vm_compute. reflexivity.
Defined.

(** C1, as it is stated, fails on a line that stands before any file
    header: the line is dropped and counted nowhere. *)
Lemma parseDiff_counts_outside_hunk :
  parseDiff "+a" = []
  /\ countLines isAddition (splitLines "+a") = 1
  /\ sumAdditions (parseDiff "+a")
     <> countLines isAddition (splitLines "+a").
Proof.
  repeat split. discriminate.
Qed.

(** ** The parser: the contents of the hunks *)

Lemma length_setContent r t st :
  List.length (setContent r t st) = List.length st.
Proof.
  revert r. induction st as [|h st IH]; intros [|r]; simpl; auto.
Qed.

Lemma deref_setContent_other r r' t st :
  r' <> r -> deref (setContent r t st) r' = deref st r'.
Proof.
  unfold deref. revert r r'.
  induction st as [|h st IH]; intros [|r] [|r'] Hne; simpl; auto.
  contradiction Hne; reflexivity.
Qed.

Lemma content_setContent_same r t st :
  (r < List.length st)%nat -> content (deref (setContent r t st) r) = t.
Proof.
  unfold deref. revert r.
  induction st as [|h st IH]; intros [|r] Hlt; simpl in *; try lia; auto.
  apply IH. lia.
Qed.

Lemma deref_app_old st h r :
  (r < List.length st)%nat -> deref (st ++ [h]) r = deref st r.
Proof.
  intros Hlt. unfold deref. now rewrite app_nth1.
Qed.

Lemma refsBelow_le n m f : (n <= m)%nat -> refsBelow n f -> refsBelow m f.
Proof.
  intros Hle. unfold refsBelow. apply Forall_impl. intros; lia.
Qed.

Lemma accContents_setContent r t st f :
  refsBelow r f -> accContents (setContent r t st) f = accContents st f.
Proof.
  unfold refsBelow, accContents. intros H.
  apply map_ext_in. intros r' Hin.
  rewrite Forall_forall in H. specialize (H r' Hin).
  rewrite deref_setContent_other by lia. reflexivity.
Qed.

Lemma accContents_alloc st h f :
  refsBelow (List.length st) f -> accContents (st ++ [h]) f = accContents st f.
Proof.
  unfold refsBelow, accContents. intros H.
  apply map_ext_in. intros r' Hin.
  rewrite Forall_forall in H. specialize (H r' Hin).
  now rewrite deref_app_old.
Qed.

Lemma accContents_pushHunk st f r :
  accContents st (pushHunk f r) = accContents st f ++ [content (deref st r)].
Proof.
  unfold accContents, pushHunk. simpl. now rewrite map_app.
Qed.

Lemma map_accContents_setContent r t st fs :
  Forall (refsBelow r) fs ->
  map (accContents (setContent r t st)) fs = map (accContents st) fs.
Proof.
  intros H. apply map_ext_in. intros f Hin.
  rewrite Forall_forall in H. now apply accContents_setContent, H.
Qed.

Lemma map_accContents_alloc st h fs :
  Forall (refsBelow (List.length st)) fs ->
  map (accContents (st ++ [h])) fs = map (accContents st) fs.
Proof.
  intros H. apply map_ext_in. intros f Hin.
  rewrite Forall_forall in H. now apply accContents_alloc, H.
Qed.

Lemma Forall_refsBelow_le n m fs :
  (n <= m)%nat -> Forall (refsBelow n) fs -> Forall (refsBelow m) fs.
Proof.
  intros Hle. apply Forall_impl. intros f. now apply refsBelow_le.
Qed.

(** Closing a hunk: its text is written through the reference and is read
    back from the file that holds the reference. *)
Lemma closed_contents r t st f :
  (r < List.length st)%nat -> refsBelow r f ->
  accContents (setContent r t st) (pushHunk f r) = accContents st f ++ [t].
Proof.
  intros Hlt Hf. rewrite accContents_pushHunk.
  rewrite content_setContent_same by assumption.
  rewrite <- (accContents_setContent r t st f Hf).
  unfold accContents, pushHunk. reflexivity.
Qed.

Lemma saveFile_contents st :
  storeInv st ->
  map (accContents (store (saveFile st))) (parsedFiles (saveFile st)) =
  map (accContents (store st)) (parsedFiles st)
  ++ match currentFile st with
     | Some f =>
         [accContents (store st) f
          ++ match currentHunk st with
             | Some _ => [joinLines (hunkContent st)]
             | None => []
             end]
     | None => []
     end.
Proof.
  intros (Hlim & Hcur & Hfs & Hf). unfold saveFile, refLimit in *.
  destruct (currentFile st) as [f|]; [|now rewrite app_nil_r].
  specialize (Hf f eq_refl).
  destruct (currentHunk st) as [r|]; simpl.
  - specialize (Hcur r eq_refl).
    rewrite map_app. simpl.
    rewrite map_accContents_setContent by assumption.
    now rewrite closed_contents.
  - rewrite map_app. simpl. now rewrite app_nil_r.
Qed.

Lemma saveFile_refs st :
  storeInv st ->
  Forall (refsBelow (List.length (store (saveFile st))))
         (parsedFiles (saveFile st)).
Proof.
  intros (Hlim & Hcur & Hfs & Hf). unfold saveFile, refLimit in *.
  destruct (currentFile st) as [f|].
  - specialize (Hf f eq_refl).
    destruct (currentHunk st) as [r|]; simpl.
    + specialize (Hcur r eq_refl). rewrite length_setContent.
      apply Forall_app. split.
      * eapply Forall_refsBelow_le; [|exact Hfs]. lia.
      * constructor; [|constructor]. unfold refsBelow, pushHunk in *. simpl.
        apply Forall_app. split.
        -- eapply Forall_impl; [|exact Hf]. simpl. intros; lia.
        -- constructor; [assumption | constructor].
    + apply Forall_app. split; [assumption|].
      constructor; [assumption | constructor].
  - eapply Forall_refsBelow_le; [|exact Hfs].
    destruct (currentHunk st); lia.
Qed.

Lemma storeInv_init : storeInv parseInit.
Proof.
  unfold storeInv, parseInit, refLimit. simpl.
  repeat split; try constructor; intros; discriminate.
Qed.

Lemma openFile_step st l rest skip :
  storeInv st -> isFileHeader l = true ->
  expected skip (openFile st l) rest = expected skip st (l :: rest)
  /\ storeInv (openFile st l).
Proof.
  intros Hinv Hl. split.
  - unfold expected, openFile, openPart. simpl. rewrite Hl.
    rewrite (saveFile_contents st Hinv), app_nil_r.
    rewrite <- app_assoc. f_equal.
    destruct (currentFile st); simpl; [|reflexivity].
    rewrite app_nil_r. reflexivity.
  - pose proof (saveFile_refs st Hinv) as Hrefs.
    unfold storeInv, openFile, refLimit. simpl.
    repeat split; auto.
    + discriminate.
    + intros f Hf. injection Hf as <-. constructor.
Qed.

Lemma markers_disjoint l :
  isHunkMarker l = true -> isFileHeader l = false /\ isMetadata l = false.
Proof.
  intros H. by_first_unit l; try discriminate.
Qed.

Ltac solve_refs :=
  repeat split; simpl; rewrite ?length_app, ?length_setContent; simpl;
  try lia; try assumption; try (intros; discriminate);
  try (intros ? Hx; injection Hx as <-; try lia; try assumption);
  try (eapply Forall_refsBelow_le; [|eassumption]; lia).

Lemma refsBelow_pushHunk f r n :
  refsBelow r f -> (r < n)%nat -> refsBelow n (pushHunk f r).
Proof.
  intros Hf Hlt. unfold refsBelow, pushHunk in *. simpl.
  apply Forall_app. split.
  - eapply Forall_impl; [|exact Hf]. simpl. intros; lia.
  - constructor; [assumption | constructor].
Qed.

Lemma openHunk_step st before l rest skip :
  storeInv st -> agree st before ->
  isFileHeader l = false -> skip l = false -> isHunkMarker l = true ->
  markerOk before l = true ->
  expected skip (openHunk st l) rest = expected skip st (l :: rest)
  /\ storeInv (openHunk st l).
Proof.
  intros (Hlim & Hcur & Hfs & Hf) [A1 A2] Hfh Hsk Hmk Hok.
  unfold markerOk, isHunkHeader in Hok. rewrite Hmk in Hok. simpl in Hok.
  unfold expected, openHunk, openPart, storeInv, refLimit in *.
  simpl hunkBody. simpl sectionHunks. simpl hunkTexts.
  unfold isHunkHeader. rewrite Hfh, Hsk, Hmk. simpl.
  destruct (currentHunk st) as [r|] eqn:Hh;
    destruct (currentFile st) as [f|] eqn:Hcf;
    destruct (matchHunkHeader l) as [m|] eqn:Hm; simpl in *;
    try specialize (Hcur _ eq_refl); try specialize (Hf _ eq_refl).
  - (* a hunk is closed and a new one is created *)
    split.
    + rewrite map_accContents_alloc, map_accContents_setContent;
        rewrite ?length_setContent; auto.
      2:{ eapply Forall_refsBelow_le; [|exact Hfs]. lia. }
      f_equal. f_equal.
      rewrite accContents_alloc.
      2:{ rewrite length_setContent. now apply refsBelow_pushHunk. }
      rewrite closed_contents by assumption.
      rewrite app_nil_r, <- app_assoc. reflexivity.
    + solve_refs. apply refsBelow_pushHunk; [assumption | lia].
  - (* excluded: a line that is not a hunk header inside a hunk *)
    rewrite <- (A2 eq_refl) in Hok. discriminate Hok.
  - (* no file is open: the open hunk is dropped *)
    split.
    + rewrite map_accContents_alloc; auto.
      eapply Forall_refsBelow_le; [|exact Hfs]. lia.
    + solve_refs.
  - split; [reflexivity | solve_refs].
  - (* the first hunk of a file *)
    split.
    + rewrite map_accContents_alloc by assumption.
      rewrite accContents_alloc by assumption. reflexivity.
    + solve_refs.
  - split; [reflexivity | solve_refs].
  - split.
    + rewrite map_accContents_alloc by assumption. reflexivity.
    + solve_refs.
  - split; [reflexivity | solve_refs].
Qed.

Lemma contentLine_step st l rest skip :
  storeInv st ->
  isFileHeader l = false -> skip l = false -> isHunkMarker l = false ->
  expected skip (contentLine st l) rest = expected skip st (l :: rest)
  /\ storeInv (contentLine st l).
Proof.
  intros (Hlim & Hcur & Hfs & Hf) Hfh Hsk Hmk.
  unfold expected, contentLine, openPart, storeInv, refLimit in *.
  simpl hunkBody. simpl sectionHunks. simpl hunkTexts.
  unfold isHunkHeader. rewrite Hfh, Hsk, Hmk. simpl.
  destruct (currentHunk st) as [r|] eqn:Hh; simpl.
  - split.
    + f_equal. f_equal.
      destruct (isAddition l), (isDeletion l), (currentFile st); simpl;
        try reflexivity; unfold accContents; simpl;
        rewrite <- app_assoc; reflexivity.
    + repeat split; auto.
      intros f Hf'.
      destruct (isAddition l), (isDeletion l),
        (currentFile st) as [f0|]; simpl in Hf'; try discriminate;
        injection Hf' as <-; apply (Hf f0 eq_refl).
  - rewrite Hh. split; [reflexivity|]. repeat split; auto.
Qed.

Lemma metadata_step st l rest :
  isFileHeader l = false -> isMetadata l = true ->
  expected isMetadata st rest = expected isMetadata st (l :: rest).
Proof.
  intros Hfh Hmd. unfold expected, openPart. simpl. rewrite Hfh, Hmd.
  reflexivity.
Qed.

Lemma parseStep_contents st before l rest :
  storeInv st -> agree st before -> markerOk before l = true ->
  expected isMetadata (parseStep st l) rest = expected isMetadata st (l :: rest)
  /\ storeInv (parseStep st l).
Proof.
  intros Hinv Ha Hok. unfold parseStep.
  destruct (isFileHeader l) eqn:Hfh; [now apply openFile_step|].
  destruct (isMetadata l) eqn:Hmd.
  { split; [now apply metadata_step | assumption]. }
  destruct (isHunkMarker l) eqn:Hmk.
  - now apply (openHunk_step st before).
  - now apply contentLine_step.
Qed.

Lemma scan_contents rest : forall st before,
  storeInv st -> agree st before -> markersOk before rest = true ->
  hunkContents (parseFinish (fold_left parseStep rest st))
  = expected isMetadata st rest.
Proof.
  induction rest as [|l rest IH]; intros st before Hinv Ha Hok.
  - simpl. unfold hunkContents, parseFinish, expected, openPart.
    rewrite map_map. simpl.
    rewrite !app_nil_r.
    transitivity (map (accContents (store (saveFile st)))
                      (parsedFiles (saveFile st))).
    + apply map_ext. intros f. unfold accContents. now rewrite map_map.
    + rewrite (saveFile_contents st Hinv). reflexivity.
  - simpl in Hok. apply andb_prop in Hok as [Hl Hrest].
    destruct (parseStep_contents st before l rest Hinv Ha Hl) as [He Hinv'].
    simpl. rewrite (IH _ (before ++ [l])); auto.
    now apply parseStep_agree.
Qed.

(** What the parser collects. In a diff where no line that starts with
    [@@] without being a hunk header stands inside a hunk, the contents of
    the hunks of [parseDiff] are, file by file and in order, the header
    line and the lines after it up to the next header or the end, joined
    by line feeds, without the lines that pass the test for file metadata
    of lines 45-53, which runs inside of a hunk too. *)
Lemma parseDiff_hunk_contents (diffContent : string) :
  markersOk [] (splitLines diffContent) = true ->
  hunkContents (parseDiff diffContent)
  = hunkTexts isMetadata (splitLines diffContent).
Proof.
  intros Hok. unfold parseDiff, parseLines.
  rewrite (scan_contents _ parseInit [] storeInv_init agree_init Hok).
  reflexivity.
Qed.

Lemma parseDiff_hunk_contents_witness :
  hunkContents (parseDiff sampleDiff)
  = hunkTexts isMetadata (splitLines sampleDiff).
Proof.
  apply (parseDiff_hunk_contents sampleDiff). vm_compute. reflexivity.
Defined.

(** C6, on the code. The content of a hunk is to be its text in the input,
    no line omitted. In the diff of a file of SQL where the line
    [-- old comment] is removed, the removed line stands in the hunk as
    [--- old comment]: the test for file metadata, which comes before the
    branch of the content lines, takes it for a file marker, so the line
    is missing in the content of the hunk and the removal is not counted.
    The tests for [+++] and [---] in the branch of the content lines are
    never reached by such a line. *)
Theorem parseDiff_content_not_verbatim :
  parseDiff commentDiff
  = [mkFile "q.sql" 1 0
       [mkHunk 1 2 1 2
          (joinLines ["@@ -1,2 +1,2 @@"; "+-- new comment"; " select 1;"])]]
  /\ hunkTexts (fun _ => false) (splitLines commentDiff)
     = [[joinLines ["@@ -1,2 +1,2 @@"; "--- old comment";
                    "+-- new comment"; " select 1;"]]]
  /\ hunkContents (parseDiff commentDiff)
     <> hunkTexts (fun _ => false) (splitLines commentDiff).
Proof.
  repeat split. vm_compute. discriminate.
Qed.

(** C5, on the code. A line that starts with [@@] and is not a hunk header,
    inside a hunk: [currentHunk] still refers to the hunk that was just
    pushed, so the lines that follow are written over its content and the
    same object is pushed a second time. One hunk header gives two records,
    both with the text of the broken header. *)
Theorem parseDiff_broken_header_repeats_hunk :
  let h := mkHunk 1 1 1 1 (joinLines ["@@ bad"; "+b"]) in
  parseDiff brokenDiff = [mkFile "f" 2 0 [h; h]]
  /\ countLines isHunkHeader (splitLines brokenDiff) = 1
  /\ hunkTexts isMetadata (splitLines brokenDiff)
     = [[joinLines ["@@ -1 +1 @@"; "+a"]]].
Proof.
  repeat split.
Qed.

(** ** The file filter: from the pattern to the source of the expression *)

Lemma escapeDots_cons c x :
  escapeDots (String c x) =
  if Ascii.eqb c "." then String "\" (String "." (escapeDots x))
  else String c (escapeDots x).
Proof.
  unfold escapeDots, replaceAll. simpl.
  rewrite startsWith_empty, andb_true_r.
  destruct (Ascii.eqb c "."); reflexivity.
Qed.

Lemma expandStars_cons c x :
  expandStars (String c x) =
  if Ascii.eqb c "*" then ("[^/]*" ++ expandStars x)%string
  else String c (expandStars x).
Proof.
  unfold expandStars, replaceAll. simpl.
  rewrite startsWith_empty, andb_true_r.
  destruct (Ascii.eqb c "*"); reflexivity.
Qed.

Lemma markGlobstars_two x :
  markGlobstars (String "*" (String "*" x))
  = ("{{GLOBSTAR}}" ++ markGlobstars x)%string.
Proof.
  unfold markGlobstars, replaceAll. simpl.
  rewrite startsWith_empty. reflexivity.
Qed.

Lemma markGlobstars_other c x :
  Ascii.eqb c "*" = false ->
  markGlobstars (String c x) = String c (markGlobstars x).
Proof.
  intros H. unfold markGlobstars, replaceAll. simpl. rewrite H. reflexivity.
Qed.

Lemma markGlobstars_one x :
  startsWith x "*" = false ->
  markGlobstars (String "*" x) = String "*" (markGlobstars x).
Proof.
  intros H. unfold markGlobstars, replaceAll. simpl.
  destruct x as [|c x]; [reflexivity|].
  simpl in *. rewrite startsWith_empty, andb_true_r in *. rewrite H.
  reflexivity.
Qed.

Lemma expandGlobstars_marker x :
  expandGlobstars ("{{GLOBSTAR}}" ++ x)%string
  = (".*" ++ expandGlobstars x)%string.
Proof.
  unfold expandGlobstars, replaceAll. simpl.
  rewrite startsWith_empty. reflexivity.
Qed.

Lemma expandGlobstars_other c x :
  Ascii.eqb c "{" = false ->
  expandGlobstars (String c x) = String c (expandGlobstars x).
Proof.
  intros H. unfold expandGlobstars, replaceAll. simpl. rewrite H. reflexivity.
Qed.

(** A plain code unit is none of the code units of the syntax. *)
Ltac plain_neq H :=
  match goal with
  | |- Ascii.eqb ?c ?k = false =>
      destruct (Ascii.eqb c k) eqn:E;
      [apply Ascii.eqb_eq in E; subst c; discriminate H | reflexivity]
  end.

Lemma globToRegex_literal c x :
  plainChar c = true -> Ascii.eqb c "*" = false -> Ascii.eqb c "." = false ->
  globToRegex (String c x) = String c (globToRegex x).
Proof.
  intros Hp Hs Hd. unfold globToRegex.
  rewrite escapeDots_cons, Hd, markGlobstars_other, expandStars_cons, Hs
    by assumption.
  apply expandGlobstars_other. plain_neq Hp.
Qed.

Lemma globToRegex_dot x :
  globToRegex (String "." x) = String "\" (String "." (globToRegex x)).
Proof.
  unfold globToRegex. rewrite escapeDots_cons. simpl.
  rewrite !markGlobstars_other, !expandStars_cons by reflexivity. simpl.
  rewrite !expandGlobstars_other by reflexivity. reflexivity.
Qed.

Lemma globToRegex_globstar x :
  globToRegex (String "*" (String "*" x)) = (".*" ++ globToRegex x)%string.
Proof.
  unfold globToRegex. rewrite !escapeDots_cons. simpl.
  rewrite markGlobstars_two. simpl.
  rewrite !expandStars_cons. simpl.
  apply (expandGlobstars_marker (expandStars (markGlobstars (escapeDots x)))).
Qed.

Lemma escapeDots_no_star x :
  startsWith x "*" = false -> startsWith (escapeDots x) "*" = false.
Proof.
  destruct x as [|c x]; [reflexivity|].
  rewrite escapeDots_cons. simpl. rewrite startsWith_empty, andb_true_r.
  intros H.
  destruct (Ascii.eqb c ".") eqn:E; [reflexivity|]. simpl.
  rewrite H. reflexivity.
Qed.

Lemma globToRegex_star x :
  startsWith x "*" = false ->
  globToRegex (String "*" x) = ("[^/]*" ++ globToRegex x)%string.
Proof.
  intros H. unfold globToRegex. rewrite escapeDots_cons. simpl.
  rewrite markGlobstars_one by now apply escapeDots_no_star.
  rewrite expandStars_cons. simpl.
  rewrite !expandGlobstars_other by reflexivity. reflexivity.
Qed.

Lemma globToRegex_tokens_bounded n : forall pattern,
  (String.length pattern <= n)%nat -> plainPattern pattern = true ->
  globToRegex pattern = tokensSource (tokenize pattern).
Proof.
  induction n as [|n IH]; intros [|c x] Hlen Hp; try reflexivity;
    simpl in Hlen; try lia.
  unfold plainPattern in *. simpl in Hp. apply andb_prop in Hp as [Hc Hx].
  simpl tokenize.
  destruct (Ascii.eqb c "*") eqn:Es.
  - apply Ascii.eqb_eq in Es. subst c.
    destruct x as [|c' x'].
    + reflexivity.
    + destruct (Ascii.eqb c' "*") eqn:Es'.
      * apply Ascii.eqb_eq in Es'. subst c'.
        simpl in Hx.
        rewrite globToRegex_globstar. simpl tokensSource.
        rewrite (IH x') by (simpl in *; auto; lia). reflexivity.
      * rewrite globToRegex_star
          by (simpl; rewrite Es'; reflexivity).
        simpl tokensSource. rewrite (IH (String c' x')) by (auto; lia).
        reflexivity.
  - simpl tokensSource. destruct (Ascii.eqb c ".") eqn:Ed.
    + apply Ascii.eqb_eq in Ed. subst c. rewrite globToRegex_dot.
      rewrite (IH x) by (auto; lia). reflexivity.
    + rewrite globToRegex_literal by assumption.
      rewrite (IH x) by (auto; lia). reflexivity.
Qed.

Lemma globToRegex_tokens pattern :
  plainPattern pattern = true ->
  globToRegex pattern = tokensSource (tokenize pattern).
Proof.
  apply (globToRegex_tokens_bounded (String.length pattern)). lia.
Qed.

(** ** The file filter: from the source to the expression *)

Lemma string_app_assoc (a b c : string) :
  ((a ++ b) ++ c)%string = (a ++ (b ++ c))%string.
Proof.
  induction a as [|x a IH]; simpl; [reflexivity | now rewrite IH].
Qed.

Lemma classify_plain c :
  plainChar c = true -> Ascii.eqb c "*" = false -> Ascii.eqb c "." = false ->
  classify c = KLiteral \/ classify c = KMinus \/ classify c = KSlash.
Proof.
  unfold plainChar, classify. intros Hp Hs Hd. rewrite Hs, Hd in *.
  repeat match goal with
         | |- context [if Ascii.eqb c ?k then _ else _] =>
             destruct (Ascii.eqb c k)
         end; try discriminate Hp; auto.
Qed.

Lemma tokenize_ok_bounded n : forall pattern,
  (String.length pattern <= n)%nat -> plainPattern pattern = true ->
  forallb okToken (tokenize pattern) = true.
Proof.
  induction n as [|n IH]; intros [|c x] Hlen Hp; try reflexivity;
    simpl in Hlen; try lia.
  unfold plainPattern in *. simpl in Hp. apply andb_prop in Hp as [Hc Hx].
  simpl tokenize.
  destruct (Ascii.eqb c "*") eqn:Es.
  - destruct x as [|c' x']; [reflexivity|].
    destruct (Ascii.eqb c' "*") eqn:Es'; simpl.
    + simpl in Hx. apply andb_prop in Hx as [_ Hx'].
      apply IH; [simpl in *; lia | assumption].
    + apply (IH (String c' x')); [lia | assumption].
  - simpl. rewrite Hc, Es. simpl. apply IH; [lia | assumption].
Qed.

Lemma tokenize_ok pattern :
  plainPattern pattern = true -> forallb okToken (tokenize pattern) = true.
Proof.
  apply (tokenize_ok_bounded (String.length pattern)). lia.
Qed.

Lemma parse_token t o d ts rest :
  okToken t = true ->
  parseFrom (mkP o (mkFrame d ts) MNormal) (tokenSource t ++ rest)
  = parseFrom (mkP o (mkFrame d (termOf t :: ts)) MNormal) rest.
Proof.
  intros Hok. destruct t as [c| |]; [|reflexivity|reflexivity].
  simpl in Hok. apply andb_prop in Hok as [Hp Hs].
  apply negb_true_iff in Hs. simpl tokenSource.
  destruct (Ascii.eqb c ".") eqn:Hd.
  - apply Ascii.eqb_eq in Hd. subst c. reflexivity.
  - simpl. unfold step, stepNormal. simpl.
    destruct (classify_plain c Hp Hs Hd) as [-> | [-> | ->]]; reflexivity.
Qed.

Lemma parse_tokens toks : forall o d ts rest,
  forallb okToken toks = true ->
  parseFrom (mkP o (mkFrame d ts) MNormal) (tokensSource toks ++ rest)
  = parseFrom (mkP o (mkFrame d (rev (map termOf toks) ++ ts)) MNormal) rest.
Proof.
  induction toks as [|t toks IH]; intros o d ts rest Hok; [reflexivity|].
  simpl in Hok. apply andb_prop in Hok as [Ht Hts].
  simpl tokensSource. rewrite string_app_assoc, parse_token by assumption.
  rewrite IH by assumption. simpl. now rewrite <- app_assoc.
Qed.

Lemma map_fst_termOf toks : map fst (map termOf toks) = map tokenRegex toks.
Proof.
  rewrite map_map. reflexivity.
Qed.

(** For a plain pattern [new RegExp] does not throw, and the expression is
    the one of the tokens of the pattern between the two anchors. *)
Lemma RegExp_plain pattern :
  plainPattern pattern = true ->
  RegExp (regexSource pattern) = Ok (patternRegex pattern).
Proof.
  intros Hp. unfold RegExp, regexSource, patternRegex.
  rewrite (globToRegex_tokens pattern Hp).
  pose proof (tokenize_ok pattern Hp) as Hok.
  destruct (anywhere pattern); simpl.
  - rewrite parse_tokens by assumption. simpl.
    unfold finish, frameRegex, alternative. simpl.
    rewrite !map_app, !rev_app_distr, <- map_rev. simpl.
    rewrite map_rev, rev_involutive, map_fst_termOf.
    reflexivity.
  - rewrite parse_tokens by assumption. simpl.
    unfold finish, frameRegex, alternative. simpl.
    rewrite !map_app, !rev_app_distr, <- map_rev. simpl.
    rewrite map_rev, rev_involutive, map_fst_termOf.
    reflexivity.
Qed.

(** ** The file filter: what the expression matches *)

Lemma starLoop_class (m : Cont -> Cont) (p : ascii -> bool) (k : Cont) :
  (forall k' b s,
     m k' b s = match s with
                | String x s' => p x && k' false s'
                | EmptyString => false
                end) ->
  forall n s b, (String.length s < n)%nat ->
  starLoop m k n b s = classRun p k b s.
Proof.
  intros Hm. induction n as [|n IH]; intros s b Hlen; [lia|].
  simpl. rewrite Hm. destruct s as [|x s']; simpl.
  - now rewrite orb_false_r.
  - assert (Hlt : (String.length s' <? S (String.length s'))%nat = true)
      by (apply Nat.ltb_lt; lia).
    rewrite Hlt. simpl.
    rewrite IH by (simpl in Hlen; lia). apply orb_comm.
Qed.

Lemma rmatch_star_dot k b s :
  rmatch (RStar RDot) k b s
  = classRun (fun x => negb (isLineTerminator x)) k b s.
Proof.
  change (starLoop (rmatch RDot) k (S (String.length s)) b s
          = classRun (fun x => negb (isLineTerminator x)) k b s).
  apply starLoop_class; [reflexivity | lia].
Qed.

Lemma rmatch_star_segment k b s :
  rmatch (RStar (RSet true ["/"%char])) k b s = classRun notSeparator k b s.
Proof.
  change (starLoop (rmatch (RSet true ["/"%char])) k (S (String.length s)) b s
          = classRun notSeparator k b s).
  apply starLoop_class; [|lia].
  intros k' b' [|x s']; [reflexivity|]. simpl.
  unfold notSeparator. now rewrite orb_false_r.
Qed.

(** On an input without line breaks, a run that the expression takes is a
    run that the pattern takes. *)
Lemma classRun_anyRun (p p' : ascii -> bool) (K : Cont) (k : string -> bool) :
  (forall b s, noLineBreak s = true -> K b s = k s) ->
  (forall x, isLineTerminator x = false -> p x = p' x) ->
  forall s b, noLineBreak s = true -> classRun p K b s = anyRun p' k s.
Proof.
  intros HK Hp. induction s as [|x s' IH]; intros b Hs; simpl.
  - now rewrite HK.
  - pose proof Hs as Hs0. unfold noLineBreak in Hs. simpl in Hs.
    apply andb_prop in Hs as [Hx Hs']. apply negb_true_iff in Hx.
    rewrite (HK b (String x s') Hs0), (Hp x Hx), (IH false Hs').
    reflexivity.
Qed.

Lemma rmatch_tokens toks : forall b s,
  noLineBreak s = true ->
  rmatch (seqOf (map tokenRegex toks ++ [REol])) accept b s = runMatch toks s.
Proof.
  induction toks as [|t toks IH]; intros b s Hs.
  - destruct s; reflexivity.
  - destruct t as [c| |].
    + destruct s as [|x s']; [reflexivity|]. simpl.
      unfold noLineBreak in Hs. simpl in Hs.
      apply andb_prop in Hs as [_ Hs']. now rewrite (IH false s' Hs').
    + change (rmatch (RStar (RSet true ["/"%char]))
                (rmatch (seqOf (map tokenRegex toks ++ [REol])) accept) b s
              = anyRun notSeparator (runMatch toks) s).
      rewrite rmatch_star_segment.
      apply classRun_anyRun; auto.
    + change (rmatch (RStar RDot)
                (rmatch (seqOf (map tokenRegex toks ++ [REol])) accept) b s
              = anyRun (fun _ => true) (runMatch toks) s).
      rewrite rmatch_star_dot.
      apply classRun_anyRun; auto.
      intros x Hx. now rewrite Hx.
Qed.

Lemma rmatch_after_separator (K : Cont) toks :
  (forall b s, noLineBreak s = true -> K b s = runMatch toks s) ->
  forall s b, noLineBreak s = true ->
  classRun (fun x => negb (isLineTerminator x))
           (rmatch (RSeq (RChar "/") REmpty) K) b s
  = matchAfterSeparator toks s.
Proof.
  intros HK.
  assert (Hk : forall b s,
             rmatch (RSeq (RChar "/") REmpty) K b s
             = match s with
               | String x s' => Ascii.eqb x "/" && K false s'
               | EmptyString => false
               end) by (intros b [|x s']; reflexivity).
  generalize dependent (rmatch (RSeq (RChar "/") REmpty) K). intros k Hk.
  induction s as [|x s' IH]; intros b Hs.
  - simpl. now rewrite Hk.
  - unfold noLineBreak in Hs. simpl in Hs.
    apply andb_prop in Hs as [Hx Hs'].
    simpl. rewrite Hk, Hx, (HK false s' Hs'). simpl.
    rewrite (IH false Hs'). reflexivity.
Qed.

Lemma rmatch_anywhere (K : Cont) s :
  rmatch anywhereRegex K true s
  = (K true s || rmatch (RStar RDot) (rmatch (RSeq (RChar "/") REmpty) K) true s)
    || K true s.
Proof. reflexivity. Qed.

Lemma searchFrom_anchored r s : searchFrom (RSeq RBol r) false s = false.
Proof.
  induction s as [|x s' IH]; simpl; [reflexivity | exact IH].
Qed.

(** [regex.test] on the expression of a pattern accepts the paths that
    the tokens of the pattern accept. *)
Lemma test_patternRegex pattern filePath :
  noLineBreak filePath = true ->
  test (patternRegex pattern) filePath = runMatches filePath pattern.
Proof.
  intros Hs. unfold test, patternRegex, runMatches.
  set (toks := tokenize pattern).
  assert (Hsearch : forall r, searchFrom (RSeq RBol r) true filePath
                              = rmatch r accept true filePath).
  { intros r. destruct filePath as [|x s']; simpl.
    - now rewrite orb_false_r.
    - now rewrite searchFrom_anchored, orb_false_r. }
  simpl seqOf. rewrite Hsearch.
  destruct (anywhere pattern); simpl app.
  - change (rmatch anywhereRegex
              (rmatch (seqOf (map tokenRegex toks ++ [REol])) accept)
              true filePath
            = runMatch toks filePath
              || true && matchAfterSeparator toks filePath).
    rewrite rmatch_anywhere, rmatch_star_dot.
    rewrite (rmatch_after_separator _ toks) by (auto using rmatch_tokens).
    rewrite (rmatch_tokens toks true filePath Hs).
    destruct (runMatch toks filePath), (matchAfterSeparator toks filePath);
      reflexivity.
  - rewrite (rmatch_tokens toks true filePath Hs).
    now rewrite orb_false_r.
Qed.

(** ** The parser: the paths *)

Lemma takeDots_noLineBreak s : noLineBreak (takeDots s) = true.
Proof.
  unfold noLineBreak. induction s as [|c s IH]; simpl; [reflexivity|].
  destruct (isLineTerminator c) eqn:E; simpl; [reflexivity|].
  now rewrite E.
Qed.

Lemma matchNewPath_noLineBreak s : forall p,
  matchNewPath s = Some p -> noLineBreak p = true.
Proof.
  induction s as [|c s IH]; intros p H; [discriminate H|].
  cbn [matchNewPath] in H.
  assert (Hhere : forall q,
             (if startsWith (String c s) " b/"
              then Some (takeDots (dropString 3 (String c s)))
              else None) = Some q -> noLineBreak q = true).
  { intros q Hq. destruct (startsWith (String c s) " b/"); [|discriminate].
    injection Hq as <-. apply takeDots_noLineBreak. }
  destruct (isLineTerminator c); [now apply Hhere|].
  destruct (matchNewPath s) as [q|]; [|now apply Hhere].
  injection H as <-. now apply IH.
Qed.

Lemma matchFileHeader_noLineBreak l : forall p,
  matchFileHeader l = Some p -> noLineBreak p = true.
Proof.
  induction l as [|c l IH]; intros p H.
  - simpl in H. discriminate H.
  - cbn [matchFileHeader] in H.
    destruct (startsWith (String c l) "diff --git a/").
    + destruct (matchNewPath (dropString 13 (String c l))) as [q|] eqn:E.
      * injection H as <-. now apply (matchNewPath_noLineBreak _ _ E).
      * now apply IH.
    + now apply IH.
Qed.

Lemma saveFile_pathsOk st :
  pathsOk st ->
  Forall (fun f => noLineBreak (accPath f) = true) (parsedFiles (saveFile st)).
Proof.
  intros [Hfs Hf]. unfold saveFile.
  destruct (currentFile st) as [f|]; [|assumption].
  specialize (Hf f eq_refl).
  destruct (currentHunk st); simpl; apply Forall_app; split; auto.
Qed.

Lemma parseStep_pathsOk st l : pathsOk st -> pathsOk (parseStep st l).
Proof.
  intros Hok. pose proof Hok as [Hfs Hf]. unfold parseStep.
  destruct (isFileHeader l).
  { split; simpl; [now apply saveFile_pathsOk|].
    intros f Heq. injection Heq as <-. simpl.
    destruct (matchFileHeader l) as [p|] eqn:E; [|reflexivity].
    now apply (matchFileHeader_noLineBreak l). }
  destruct (isMetadata l); [assumption|].
  destruct (isHunkMarker l).
  - unfold openHunk.
    destruct (currentHunk st), (currentFile st) as [f|],
      (matchHunkHeader l); split; simpl; auto;
      try (intros f0 Heq; injection Heq as <-; simpl; now apply Hf);
      intros; discriminate.
  - unfold contentLine. destruct (currentHunk st); [|assumption].
    split; simpl; [assumption|].
    intros f0 Heq.
    destruct (isAddition l), (isDeletion l), (currentFile st) as [f|];
      simpl in Heq; try discriminate; injection Heq as <-; simpl;
      now apply Hf.
Qed.

(** The paths of the files of [parseDiff] hold no line break: they are what
    the dot of the file header expression has matched. *)
Lemma parseDiff_paths (diffContent : string) :
  forallb (fun f => noLineBreak (path f)) (parseDiff diffContent) = true.
Proof.
  unfold parseDiff, parseLines, parseFinish.
  assert (Hok : pathsOk (fold_left parseStep (splitLines diffContent)
                                   parseInit)).
  { generalize (splitLines diffContent) as ls.
    assert (Hinit : pathsOk parseInit)
      by (split; [constructor | intros; discriminate]).
    revert Hinit. generalize parseInit as st.
    intros st Hst ls. revert st Hst.
    induction ls as [|l ls IH]; intros st Hst; simpl; [assumption|].
    apply IH, parseStep_pathsOk, Hst. }
  apply saveFile_pathsOk in Hok.
  apply forallb_forall. intros f Hin.
  apply in_map_iff in Hin as (a & <- & Ha).
  rewrite Forall_forall in Hok. now apply Hok.
Qed.

(** ** The file filter *)

Lemma matchPattern_plain filePath pattern :
  plainPattern pattern = true -> noLineBreak filePath = true ->
  matchPattern filePath pattern = Ok (runMatches filePath pattern).
Proof.
  intros Hp Hs. unfold matchPattern.
  rewrite (RegExp_plain pattern Hp). simpl.
  now rewrite test_patternRegex.
Qed.

Lemma someM_plain filePath patterns :
  forallb plainPattern patterns = true -> noLineBreak filePath = true ->
  someM (matchPattern filePath) patterns
  = Ok (existsb (runMatches filePath) patterns).
Proof.
  intros Hps Hs. induction patterns as [|p ps IH]; [reflexivity|].
  simpl in Hps. apply andb_prop in Hps as [Hp Hps].
  simpl. rewrite (matchPattern_plain filePath p Hp Hs). simpl.
  destruct (runMatches filePath p); [reflexivity | now apply IH].
Qed.

Lemma shouldIgnoreFile_plain filePath config :
  forallb plainPattern (patternsOf config) = true ->
  noLineBreak filePath = true ->
  shouldIgnoreFile filePath config = Ok (runDropped config filePath).
Proof.
  unfold patternsOf. rewrite forallb_app. intros Hps Hs.
  apply andb_prop in Hps as [Hinc Hign].
  unfold shouldIgnoreFile, runDropped.
  change (match ignore config with
          | Some l => l
          | None => []
          end) with (listOr (ignore config)).
  destruct (include_only config) as [[|p ps]|]; simpl listOr in *.
  - now apply someM_plain.
  - rewrite (someM_plain filePath (p :: ps) Hinc Hs). simpl bind.
    rewrite (someM_plain filePath _ Hign Hs).
    change (nonEmpty (p :: ps)) with true.
    simpl existsb.
    destruct (runMatches filePath p || existsb (runMatches filePath) ps);
      reflexivity.
  - now apply someM_plain.
Qed.

(** For patterns that hold nothing of the syntax of regular expressions
    but dots and stars, and paths without a line break, the filter drops
    the files that the expressions accept as said above. *)
Lemma filterFiles_plain fs config :
  forallb plainPattern (patternsOf config) = true ->
  forallb (fun f => noLineBreak (path f)) fs = true ->
  filterFiles fs config = Ok (filterRuns fs config).
Proof.
  intros Hps Hfs. induction fs as [|f fs IH]; [reflexivity|].
  simpl in Hfs. apply andb_prop in Hfs as [Hf Hfs].
  simpl. rewrite (shouldIgnoreFile_plain (path f) config Hps Hf). simpl.
  rewrite (IH Hfs). simpl.
  destruct (runDropped config (path f)); reflexivity.
Qed.

(** C7, on the code. [matchPattern] hands the pattern to [new RegExp]
    with nothing but its dots escaped, so the parentheses of the pattern
    [app/(admin)/**] form a group: the file of the directory [(admin)],
    which the pattern names, is kept, and the file of the directory
    [admin] is dropped. Two stars become [.*] with the separator that
    follows them left in place, so [**/node_modules/**] asks for a
    separator in front of [node_modules] and the file of that directory
    at the top of the repository is kept. With the glob patterns of the
    specification the first list is filtered to the file of [admin] and
    the second to nothing. On the scenario of the specification the code
    and the specification agree. *)
Theorem filterFiles_group_pattern :
  filterFiles groupFiles groupConfig
  = Ok [mkFile "app/(admin)/page.tsx" 1 0 []]
  /\ filterSpec groupFiles groupConfig = [mkFile "app/admin/page.tsx" 1 0 []]
  /\ filterFiles packageFiles sampleConfig
     = Ok [mkFile "node_modules/x.js" 1 0 []]
  /\ filterSpec packageFiles sampleConfig = []
  /\ filterFiles sampleFiles sampleConfig = Ok [mkFile "src/app.ts" 10 5 []]
  /\ filterSpec sampleFiles sampleConfig = [mkFile "src/app.ts" 10 5 []].
Proof.
  repeat split.
Qed.

(** ** The embedding on the tests of the repository *)

Example parseDiff_sample_files :
  map path (parseDiff sampleDiff) = ["src/utils.ts"; "src/main.ts"]
  /\ map additions (parseDiff sampleDiff) = [2; 0]
  /\ map deletions (parseDiff sampleDiff) = [0; 1]
  /\ map (fun f => map oldStart (hunks f)) (parseDiff sampleDiff) = [[10]; [1]]
  /\ map (fun f => map newLines (hunks f)) (parseDiff sampleDiff) = [[8]; [4]].
Proof. repeat split. Qed.

Example parseDiff_empty : parseDiff EmptyString = [].
Proof. reflexivity. Qed.

Example filterFiles_include_only :
  filterFiles [mkFile "src/app.ts" 10 5 []; mkFile "tests/app.test.ts" 20 10 []]
              (mkConfig (Some []) (Some ["src/**"]))
  = Ok [mkFile "src/app.ts" 10 5 []].
Proof. reflexivity. Qed.

Example splitIntoChunks_small :
  splitIntoChunks [mkFile "a.ts" 10 5 []; mkFile "b.ts" 20 10 []] 1000
  = [mkChunk [mkFile "a.ts" 10 5 []; mkFile "b.ts" 20 10 []] 45].
Proof. reflexivity. Qed.

Example splitIntoChunks_large :
  map (fun c => map path (files c))
      (splitIntoChunks [mkFile "small.ts" 10 5 []; mkFile "large.ts" 1000 500 [];
                        mkFile "another.ts" 20 10 []] 100)
  = [["small.ts"]; ["large.ts"]; ["another.ts"]].
Proof. reflexivity. Qed.

Example limitFiles_largest :
  map path (limitFiles [mkFile "small.ts" 5 2 []; mkFile "large.ts" 100 50 [];
                        mkFile "medium.ts" 30 15 []] 2)
  = ["large.ts"; "medium.ts"].
Proof. reflexivity. Qed.

(** Sources that [new RegExp] refuses, and one that it reads otherwise than
    a glob would. *)
Example RegExp_nothing_to_repeat : RegExp (regexSource "c++") = Throws.
Proof. reflexivity. Qed.

Example RegExp_unterminated_group : RegExp (regexSource "(") = Throws.
Proof. reflexivity. Qed.

Example matchPattern_class :
  matchPattern "pages/[id].tsx" "pages/[id].tsx" = Ok false
  /\ matchPattern "pages/i.tsx" "pages/[id].tsx" = Ok true.
Proof. split; reflexivity. Qed.

(* ================================================================== *)
(** * Further properties of the code *)

(** ** The result merger: issues and positives *)

Lemma filter_flat_map {A B} (p : B -> bool) (f : A -> list B) l :
  filter p (flat_map f l) = flat_map (fun x => filter p (f x)) l.
Proof.
  induction l as [|x l IH]; simpl; [reflexivity|].
  now rewrite filter_app, IH.
Qed.

Lemma length_flat_map_sum {A B} (f : A -> list B) l :
  Z.of_nat (List.length (flat_map f l))
  = fold_right Z.add 0 (map (fun x => Z.of_nat (List.length (f x))) l).
Proof.
  induction l as [|x l IH]; simpl; [reflexivity|].
  rewrite length_app, Nat2Z.inj_add, IH. reflexivity.
Qed.

Lemma mergeReviewResults_issues_eq results :
  issues (mergeReviewResults results) = flat_map issues results.
Proof.
  destruct results as [|r [|r' rs]]; simpl; try reflexivity.
  now rewrite app_nil_r.
Qed.

(** X1. Whatever the number of results, the merged issues are the issues of
    the results one after the other, none lost and none added, and the
    merged result has as many critical issues as the results together. *)
Theorem mergeReviewResults_issues (results : list ReviewResult) :
  issues (mergeReviewResults results) = flat_map issues results
  /\ countCriticalIssues (mergeReviewResults results) = sumCritical results.
Proof.
  split; [apply mergeReviewResults_issues_eq|].
  unfold countCriticalIssues, sumCritical.
  rewrite mergeReviewResults_issues_eq, filter_flat_map, length_flat_map_sum.
  reflexivity.
Qed.

Lemma existsb_eqb_In x seen :
  existsb (String.eqb x) seen = true <-> In x seen.
Proof.
  rewrite existsb_exists. split.
  - intros (y & Hin & Heq). apply String.eqb_eq in Heq. now subst.
  - intros Hin. exists x. split; [assumption | apply String.eqb_refl].
Qed.

Lemma dedupe_spec xs : forall seen,
  NoDup (dedupe seen xs)
  /\ (forall x, In x (dedupe seen xs) <-> In x xs /\ ~ In x seen).
Proof.
  induction xs as [|y xs IH]; intros seen; simpl.
  - split; [constructor | intros x; tauto].
  - destruct (existsb (String.eqb y) seen) eqn:E.
    + apply existsb_eqb_In in E. destruct (IH seen) as [Hnd Hin].
      split; [assumption|]. intros x. rewrite Hin. split.
      * intros [H1 H2]. auto.
      * intros [[-> | H1] H2]; [contradiction | auto].
    + assert (Hy : ~ In y seen).
      { intros H. apply existsb_eqb_In in H. congruence. }
      destruct (IH (y :: seen)) as [Hnd Hin]. split.
      * constructor; [|assumption]. rewrite Hin. simpl. tauto.
      * intros x. simpl. rewrite Hin. simpl. split.
        -- intros [<- | [H1 H2]]; [tauto|]. split; [tauto|]. tauto.
        -- intros [[<- | H1] H2]; [tauto|].
           destruct (string_dec y x) as [<- | Hne]; [tauto|]. right. tauto.
Qed.

(** X2. When two or more results are merged, no positive remark appears
    twice in the merged result, and the merged remarks are exactly the
    remarks of the results. *)
Theorem mergeReviewResults_positives (results : list ReviewResult) :
  (2 <= List.length results)%nat ->
  NoDup (positives (mergeReviewResults results))
  /\ (forall x, In x (positives (mergeReviewResults results))
                <-> In x (flat_map positives results)).
Proof.
  intros Hlen.
  destruct results as [|r [|r' rs]]; simpl in Hlen; try lia.
  unfold mergeReviewResults. cbn [positives].
  destruct (dedupe_spec (flat_map positives (r :: r' :: rs)) []) as [Hnd Hin].
  split; [assumption|]. intros x. rewrite Hin. simpl. tauto.
Qed.

Lemma mergeReviewResults_positives_witness :
  let rs := [mkResult "a" [] ["tests"; "naming"] approve;
             mkResult "b" [] ["naming"; "docs"] approve] in
  NoDup (positives (mergeReviewResults rs))
  /\ (forall x, In x (positives (mergeReviewResults rs))
                <-> In x (flat_map positives rs)).
Proof.
  intro rs. apply (mergeReviewResults_positives rs). simpl. lia.
Defined.

(** ** The chunk partitioner: the totals *)

Lemma calculateDiffSize_sum fs : calculateDiffSize fs = sumSizes fs.
Proof.
  unfold calculateDiffSize, sumSizes, sizes.
  assert (H : forall acc,
             fold_left (fun total f => total + additions f + deletions f) fs acc
             = acc + fold_right Z.add 0 (map fileSize fs)).
  { induction fs as [|f fs IH]; intros acc; simpl; [lia|].
    rewrite IH. unfold fileSize. lia. }
  rewrite H. lia.
Qed.

Lemma sumSizes_app l1 l2 : sumSizes (l1 ++ l2) = sumSizes l1 + sumSizes l2.
Proof.
  unfold sumSizes, sizes. induction l1 as [|x l1 IH]; simpl; [reflexivity|].
  rewrite IH. lia.
Qed.

Lemma sumTotalLines_ok maxChunkSize cs :
  Forall (chunkOk maxChunkSize) cs ->
  sumTotalLines cs = sumSizes (flat_map files cs).
Proof.
  unfold sumTotalLines.
  induction 1 as [|c cs (Ht & _) _ IH]; simpl; [reflexivity|].
  rewrite sumSizes_app, IH, Ht. reflexivity.
Qed.

(** X3. The line totals of the chunks of [splitIntoChunks] add up to
    [calculateDiffSize] of the input, whatever the maximum. *)
Theorem splitIntoChunks_total (fs : list DiffFile) (maxChunkSize : Z) :
  sumTotalLines (splitIntoChunks fs maxChunkSize) = calculateDiffSize fs.
Proof.
  rewrite (sumTotalLines_ok maxChunkSize) by apply splitIntoChunks_ok.
  rewrite calculateDiffSize_sum. f_equal.
  unfold splitIntoChunks. rewrite splitFinish_covered, fold_covered.
  reflexivity.
Qed.

(** ** The parser: one file for every file header *)

Lemma heldPaths_saveFile st :
  map accPath (parsedFiles (saveFile st)) = heldPaths st.
Proof.
  unfold saveFile, heldPaths.
  destruct (currentFile st) as [f|]; [|now rewrite app_nil_r].
  destruct (currentHunk st); simpl; now rewrite map_app.
Qed.

Lemma heldPaths_step st l :
  heldPaths (parseStep st l)
  = heldPaths st ++ (if isFileHeader l then [headerPath l] else []).
Proof.
  unfold parseStep. destruct (isFileHeader l).
  - unfold openFile, heldPaths at 1. simpl.
    rewrite heldPaths_saveFile. reflexivity.
  - rewrite app_nil_r. destruct (isMetadata l); [reflexivity|].
    destruct (isHunkMarker l).
    + unfold openHunk, heldPaths.
      destruct (currentHunk st), (currentFile st), (matchHunkHeader l);
        reflexivity.
    + unfold contentLine, heldPaths.
      destruct (currentHunk st); [|reflexivity]. simpl.
      destruct (isAddition l), (isDeletion l), (currentFile st); reflexivity.
Qed.

Lemma heldPaths_scan ls : forall st,
  heldPaths (fold_left parseStep ls st)
  = heldPaths st ++ map headerPath (filter isFileHeader ls).
Proof.
  induction ls as [|l ls IH]; intros st; simpl; [now rewrite app_nil_r|].
  rewrite IH, heldPaths_step, <- app_assoc.
  destruct (isFileHeader l); reflexivity.
Qed.

(** X4. [parseDiff] returns one file for every line that starts with
    [diff --git], in the order of these lines, each with the path of its
    line (the empty path when the line does not have the shape of a file
    header), and nothing else: an input without such a line gives no
    file. *)
Theorem parseDiff_files (diffContent : string) :
  map path (parseDiff diffContent)
  = map headerPath (filter isFileHeader (splitLines diffContent)).
Proof.
  unfold parseDiff, parseLines, parseFinish.
  rewrite map_map. cbn [path resolve].
  change (map (fun x => accPath x) ?l) with (map accPath l).
  rewrite heldPaths_saveFile, heldPaths_scan. reflexivity.
Qed.

(** ** The file filter: what it keeps *)

Lemma filterFiles_cons f fs config r :
  filterFiles (f :: fs) config = Ok r ->
  exists ignored r',
    shouldIgnoreFile (path f) config = Ok ignored
    /\ filterFiles fs config = Ok r'
    /\ r = if ignored then r' else f :: r'.
Proof.
  simpl. destruct (shouldIgnoreFile (path f) config) as [ignored| |];
    simpl; try discriminate.
  destruct (filterFiles fs config) as [r'| |]; simpl; try discriminate.
  intros H. injection H as <-. now exists ignored, r'.
Qed.

Lemma filterFiles_kept fs config : forall r,
  filterFiles fs config = Ok r ->
  Forall (fun f => In f fs /\ kept config f) r
  /\ (List.length r <= List.length fs)%nat.
Proof.
  induction fs as [|f fs IH]; intros r H.
  - injection H as <-. split; [constructor | simpl; lia].
  - apply filterFiles_cons in H as (ignored & r' & Hf & Hr' & ->).
    destruct (IH r' Hr') as [Hall Hlen].
    assert (Hall' : Forall (fun g => In g (f :: fs) /\ kept config g) r').
    { eapply Forall_impl; [|exact Hall]. simpl. tauto. }
    destruct ignored; simpl.
    + split; [assumption | lia].
    + split; [|lia]. constructor; [|assumption].
      split; [now left | exact Hf].
Qed.

Lemma filterFiles_all_kept r config :
  Forall (kept config) r -> filterFiles r config = Ok r.
Proof.
  induction 1 as [|f r Hf _ IH]; [reflexivity|].
  simpl. unfold kept in Hf. rewrite Hf. simpl. rewrite IH. reflexivity.
Qed.

(** X5. Whenever [filterFiles] returns, every file it returns is a file of
    the input that [shouldIgnoreFile] does not ignore, the result is not
    longer than the input, and filtering the result again with the same
    configuration changes nothing. This holds for every configuration,
    whatever its patterns. *)
Theorem filterFiles_idempotent (fs r : list DiffFile) (config : UserConfig) :
  filterFiles fs config = Ok r ->
  Forall (fun f => In f fs /\ shouldIgnoreFile (path f) config = Ok false) r
  /\ (List.length r <= List.length fs)%nat
  /\ filterFiles r config = Ok r.
Proof.
  intros H. destruct (filterFiles_kept fs config r H) as [Hall Hlen].
  split; [exact Hall|]. split; [exact Hlen|].
  apply filterFiles_all_kept.
  eapply Forall_impl; [|exact Hall]. simpl. tauto.
Qed.

Lemma filterFiles_idempotent_witness :
  Forall (fun f => In f sampleFiles
                   /\ shouldIgnoreFile (path f) sampleConfig = Ok false)
         [mkFile "src/app.ts" 10 5 []]
  /\ (List.length [mkFile "src/app.ts" 10 5 []] <= List.length sampleFiles)%nat
  /\ filterFiles [mkFile "src/app.ts" 10 5 []] sampleConfig
     = Ok [mkFile "src/app.ts" 10 5 []].
Proof.
  apply (filterFiles_idempotent sampleFiles [mkFile "src/app.ts" 10 5 []]
                                sampleConfig).
  reflexivity.
Defined.

(** X6. With no pattern in [ignore] and none in [include_only], be the
    fields absent or empty, no file is filtered out and no regular
    expression is built: every list is returned as it is. *)
Theorem filterFiles_no_patterns (fs : list DiffFile) (config : UserConfig) :
  listOr (ignore config) = [] -> listOr (include_only config) = [] ->
  filterFiles fs config = Ok fs.
Proof.
  intros Hign Hinc. apply filterFiles_all_kept.
  apply Forall_forall. intros f _. unfold kept, shouldIgnoreFile.
  destruct config as [ign inc]. simpl in *.
  destruct inc as [[|p ps]|]; try discriminate Hinc;
    destruct ign as [[|q qs]|]; try discriminate Hign; reflexivity.
Qed.

Lemma filterFiles_no_patterns_witness :
  filterFiles sampleFiles (mkConfig None (Some [])) = Ok sampleFiles.
Proof.
  apply (filterFiles_no_patterns sampleFiles (mkConfig None (Some [])));
    reflexivity.
Defined.

(** ** [getLineNumber] *)

Lemma lineLoop_count rest : forall i changeIndex n,
  lineLoop rest i changeIndex n
  = n + Z.of_nat (List.length
                    (filter keptLine
                       (firstn (Z.to_nat (changeIndex - i + 1)) rest))).
Proof.
  induction rest as [|l rest IH]; intros i ci n; simpl.
  - rewrite firstn_nil. simpl. lia.
  - destruct (i <=? ci) eqn:E.
    + apply Z.leb_le in E. rewrite IH.
      replace (Z.to_nat (ci - i + 1)) with (S (Z.to_nat (ci - (i + 1) + 1)))
        by lia.
      simpl. unfold keptLine at 2.
      destruct (startsWith l "-"); simpl; lia.
    + apply Z.leb_gt in E.
      replace (Z.to_nat (ci - i + 1)) with 0%nat by lia.
      simpl. lia.
Qed.

Lemma filter_firstn_le {A} (p : A -> bool) (l : list A) n m :
  (n <= m)%nat ->
  (List.length (filter p (firstn n l))
   <= List.length (filter p (firstn m l)))%nat.
Proof.
  revert n m. induction l as [|x l IH]; intros n m Hle.
  - now rewrite !firstn_nil.
  - destruct n as [|n]; [simpl; lia|].
    destruct m as [|m]; [lia|]. simpl.
    specialize (IH n m ltac:(lia)).
    destruct (p x); simpl; lia.
Qed.

Lemma filter_length_le {A} (p : A -> bool) (l : list A) :
  (List.length (filter p l) <= List.length l)%nat.
Proof.
  induction l as [|x l IH]; simpl; [lia|]. destruct (p x); simpl; lia.
Qed.

(** X7. [getLineNumber] returns the start of the hunk in the new file plus
    the number of lines that are not removed lines among the first
    [changeIndex] lines after the header. So it returns the start itself
    for an index that is not positive, it never decreases when the index
    grows, it moves by at most the index, and beyond the last line of the
    hunk it stays at its last value. *)
Theorem getLineNumber_spec (hunk : DiffHunk) (changeIndex : Z) :
  getLineNumber hunk changeIndex
  = newStart hunk
    + Z.of_nat (List.length
                  (filter keptLine
                     (firstn (Z.to_nat changeIndex) (hunkBodyLines hunk))))
  /\ (changeIndex <= 0 -> getLineNumber hunk changeIndex = newStart hunk)
  /\ newStart hunk <= getLineNumber hunk changeIndex
     <= newStart hunk + Z.max 0 changeIndex
  /\ (forall later, changeIndex <= later ->
        getLineNumber hunk changeIndex <= getLineNumber hunk later)
  /\ (Z.of_nat (List.length (hunkBodyLines hunk)) <= changeIndex ->
      getLineNumber hunk changeIndex
      = getLineNumber hunk (Z.of_nat (List.length (hunkBodyLines hunk)))).
Proof.
  assert (Heq : forall ci,
             getLineNumber hunk ci
             = newStart hunk
               + Z.of_nat (List.length
                             (filter keptLine
                                (firstn (Z.to_nat ci) (hunkBodyLines hunk))))).
  { intros ci. unfold getLineNumber, hunkBodyLines. rewrite lineLoop_count.
    replace (ci - 1 + 1) with ci by lia. reflexivity. }
  split; [apply Heq|]. split; [|split; [|split]].
  - intros Hle. rewrite Heq.
    replace (Z.to_nat changeIndex) with 0%nat by lia. simpl. lia.
  - rewrite Heq.
    pose proof (filter_length_le keptLine
                  (firstn (Z.to_nat changeIndex) (hunkBodyLines hunk))) as H.
    rewrite length_firstn in H. lia.
  - intros later Hle. rewrite !Heq.
    pose proof (filter_firstn_le keptLine (hunkBodyLines hunk)
                  (Z.to_nat changeIndex) (Z.to_nat later) ltac:(lia)).
    lia.
  - intros Hle. rewrite !Heq, Nat2Z.id.
    rewrite firstn_all, firstn_all2 by lia. reflexivity.
Qed.

Lemma getLineNumber_spec_witness :
  let hunk := mkHunk 10 3 20 3
                (joinLines ["@@ -10,3 +20,3 @@"; " a"; "-b"; "+c"; " d"]) in
  getLineNumber hunk 0 = 20
  /\ getLineNumber hunk 2 <= getLineNumber hunk 3
  /\ getLineNumber hunk 9 = getLineNumber hunk 4.
Proof.
  intro hunk.
  destruct (getLineNumber_spec hunk 0) as (_ & H0 & _).
  destruct (getLineNumber_spec hunk 2) as (_ & _ & _ & Hmono & _).
  destruct (getLineNumber_spec hunk 9) as (_ & _ & _ & _ & Hsat).
  split; [apply H0; lia|]. split; [apply Hmono; lia|].
  apply Hsat. vm_compute. discriminate.
Defined.

(** ** The choice of the provider *)

Lemma requireKey_truthy p key message config :
  truthy key = true ->
  exists k, key = Some k
            /\ requireKey p key message config
               = Returns (NewClient p k (model config) (userConfig config)).
Proof.
  intros H. unfold requireKey. rewrite H.
  destruct key as [k|]; [|discriminate H]. now exists k.
Qed.

(** X8. [determineProvider] never returns a provider whose credential is
    absent or empty: whatever the model name, the provider it returns has
    its key (or URL) among the inputs. So [createAIClient] on a
    configuration with this provider and the same credentials does not
    throw, and constructs the client of this provider with that
    credential. *)
Theorem determineProvider_credential
  (name : string) (ko ka kg kge ou : option string) (p : AIProvider)
  (config : UserConfig) :
  determineProvider name ko ka kg kge ou = Returns p ->
  truthy (credentialOf p ko ka kg kge ou) = true
  /\ exists k,
       credentialOf p ko ka kg kge ou = Some k
       /\ createAIClient (mkAction ko ka kg kge ou p name config)
          = Returns (NewClient p k name config).
Proof.
  intros H.
  assert (Ht : truthy (credentialOf p ko ka kg kge ou) = true).
  { unfold determineProvider in H.
    repeat match type of H with
           | (if ?c then _ else _) = _ => destruct c eqn:?
           end;
      try discriminate H; injection H as <-; assumption. }
  split; [exact Ht|].
  unfold createAIClient. cbn [provider].
  destruct p; cbn [credentialOf] in *;
    match goal with
    | |- context [requireKey ?q ?key ?m ?c] =>
        destruct (requireKey_truthy q key m c Ht) as (k & Hk & Hr);
        exists k; split; [exact Hk | exact Hr]
    end.
Qed.

Lemma determineProvider_credential_witness :
  truthy (credentialOf anthropic None (Some "sk-ant") None None None) = true
  /\ exists k,
       credentialOf anthropic None (Some "sk-ant") None None None = Some k
       /\ createAIClient
            (mkAction None (Some "sk-ant") None None None anthropic
                      "claude-sonnet" sampleConfig)
          = Returns (NewClient anthropic k "claude-sonnet" sampleConfig).
Proof.
  apply (determineProvider_credential "claude-sonnet" None (Some "sk-ant")
           None None None anthropic sampleConfig).
  reflexivity.
Defined.

(** ** The scan with a store and the scan with values *)

Lemma deref_setContent_same r t st :
  (r < List.length st)%nat ->
  deref (setContent r t st) r = withContent (deref st r) t.
Proof.
  unfold deref. revert r.
  induction st as [|h st IH]; intros [|r] Hlt; simpl in *; try lia; auto.
  apply IH. lia.
Qed.

Lemma deref_alloc_new st h : deref (st ++ [h]) (List.length st) = h.
Proof.
  unfold deref. rewrite app_nth2 by lia. now rewrite Nat.sub_diag.
Qed.

Lemma resolve_setContent r t st f :
  refsBelow r f -> resolve (setContent r t st) f = resolve st f.
Proof.
  unfold refsBelow, resolve. intros H. f_equal.
  apply map_ext_in. intros r' Hin.
  rewrite Forall_forall in H. specialize (H r' Hin).
  apply deref_setContent_other. lia.
Qed.

Lemma resolve_alloc st h f :
  refsBelow (List.length st) f -> resolve (st ++ [h]) f = resolve st f.
Proof.
  unfold refsBelow, resolve. intros H. f_equal.
  apply map_ext_in. intros r' Hin.
  rewrite Forall_forall in H. specialize (H r' Hin).
  now apply deref_app_old.
Qed.

Lemma map_resolve_setContent r t st fs :
  Forall (refsBelow r) fs ->
  map (resolve (setContent r t st)) fs = map (resolve st) fs.
Proof.
  intros H. apply map_ext_in. intros f Hin.
  rewrite Forall_forall in H. now apply resolve_setContent, H.
Qed.

Lemma map_resolve_alloc st h fs :
  Forall (refsBelow (List.length st)) fs ->
  map (resolve (st ++ [h])) fs = map (resolve st) fs.
Proof.
  intros H. apply map_ext_in. intros f Hin.
  rewrite Forall_forall in H. now apply resolve_alloc, H.
Qed.

Lemma resolve_closed r lines st f :
  (r < List.length st)%nat -> refsBelow r f ->
  resolve (setContent r (joinLines lines) st) (pushHunk f r)
  = closeHunkV (resolve st f) (deref st r) lines.
Proof.
  intros Hlt Hf. unfold resolve, pushHunk, closeHunkV. simpl.
  rewrite map_app. simpl. rewrite deref_setContent_same by assumption.
  f_equal. f_equal.
  apply map_ext_in. intros r' Hin.
  unfold refsBelow in Hf. rewrite Forall_forall in Hf. specialize (Hf r' Hin).
  apply deref_setContent_other. lia.
Qed.

Lemma saveFile_abs st :
  storeInv st ->
  map (resolve (store (saveFile st))) (parsedFiles (saveFile st))
  = saveFileV (absState st).
Proof.
  intros (Hlim & Hcur & Hfs & Hf).
  unfold saveFile, saveFileV, pendingV, absState, refLimit in *. simpl.
  destruct (currentFile st) as [f|]; simpl; [|now rewrite app_nil_r].
  specialize (Hf f eq_refl).
  destruct (currentHunk st) as [r|]; simpl.
  - specialize (Hcur r eq_refl). rewrite map_app. simpl.
    rewrite map_resolve_setContent by assumption.
    now rewrite resolve_closed.
  - now rewrite map_app.
Qed.

Lemma resolve_bump st l f :
  resolve st (if isAddition l then bumpAdditions f
              else if isDeletion l then bumpDeletions f else f)
  = bumpV l (resolve st f).
Proof.
  unfold bumpV. destruct (isAddition l), (isDeletion l); reflexivity.
Qed.

Lemma parseStep_abs st before l :
  storeInv st -> agree st before -> markerOk before l = true ->
  absState (parseStep st l) = stepV (absState st) l.
Proof.
  intros Hinv Ha Hok. pose proof Hinv as (Hlim & Hcur & Hfs & Hf).
  unfold parseStep, stepV.
  destruct (isFileHeader l) eqn:Hfh.
  { unfold openFile, absState at 1. simpl.
    rewrite (saveFile_abs st Hinv). reflexivity. }
  destruct (isMetadata l) eqn:Hmd; [reflexivity|].
  destruct (isHunkMarker l) eqn:Hmk.
  - unfold markerOk, isHunkHeader in Hok. rewrite Hmk in Hok. simpl in Hok.
    destruct Ha as [A1 A2].
    unfold openHunk, absState, refLimit in *. simpl.
    destruct (currentHunk st) as [r|] eqn:Hh;
      destruct (currentFile st) as [f|] eqn:Hcf;
      destruct (matchHunkHeader l) as [m|] eqn:Hm; simpl in *;
      try specialize (Hcur _ eq_refl); try specialize (Hf _ eq_refl).
    + rewrite map_resolve_alloc, map_resolve_setContent;
        rewrite ?length_setContent; auto.
      2:{ eapply Forall_refsBelow_le; [|exact Hfs]. lia. }
      rewrite resolve_alloc
        by (rewrite length_setContent; now apply refsBelow_pushHunk).
      rewrite resolve_closed by assumption.
      rewrite <- (length_setContent r (joinLines (hunkContent st)) (store st)).
      rewrite deref_alloc_new. reflexivity.
    + rewrite <- (A2 eq_refl) in Hok. discriminate Hok.
    + rewrite map_resolve_alloc
        by (eapply Forall_refsBelow_le; [|exact Hfs]; lia).
      rewrite deref_alloc_new. reflexivity.
    + reflexivity.
    + rewrite map_resolve_alloc, resolve_alloc by assumption.
      rewrite deref_alloc_new. reflexivity.
    + reflexivity.
    + rewrite map_resolve_alloc by assumption.
      rewrite deref_alloc_new. reflexivity.
    + reflexivity.
  - unfold contentLine, absState. simpl.
    destruct (currentHunk st) as [r|] eqn:Hh; simpl;
      [|rewrite Hh; reflexivity].
    f_equal.
    destruct (currentFile st) as [f|]; simpl.
    + rewrite <- resolve_bump.
      destruct (isAddition l), (isDeletion l); reflexivity.
    + destruct (isAddition l), (isDeletion l); reflexivity.
Qed.

Lemma parseStep_storeInv st before l :
  storeInv st -> agree st before -> markerOk before l = true ->
  storeInv (parseStep st l).
Proof.
  intros Hinv Ha Hok.
  apply (parseStep_contents st before l [] Hinv Ha Hok).
Qed.

(** When no stray line that starts with [@@] stands inside a hunk, the
    scan with the store gives what the scan with values gives. *)
Lemma scan_abs ls : forall st before,
  storeInv st -> agree st before -> markersOk before ls = true ->
  parseFinish (fold_left parseStep ls st)
  = saveFileV (fold_left stepV ls (absState st)).
Proof.
  induction ls as [|l ls IH]; intros st before Hinv Ha Hok.
  - simpl. unfold parseFinish. now apply saveFile_abs.
  - simpl in Hok. apply andb_prop in Hok as [Hl Hrest]. simpl.
    rewrite <- (parseStep_abs st before l Hinv Ha Hl).
    apply (IH _ (before ++ [l])); auto.
    + now apply (parseStep_storeInv st before).
    + now apply parseStep_agree.
Qed.

Lemma parseLines_values ls :
  markersOk [] ls = true -> parseLines ls = parseLinesV ls.
Proof.
  intros Hok. unfold parseLines, parseLinesV.
  now rewrite (scan_abs ls parseInit [] storeInv_init agree_init Hok).
Qed.

Lemma markersWellFormed_ok ls : forall before,
  markersWellFormed ls = true -> markersOk before ls = true.
Proof.
  unfold markersWellFormed.
  induction ls as [|l ls IH]; intros before H; [reflexivity|].
  simpl in H. apply andb_prop in H as [Hl Hls].
  simpl. rewrite (IH _ Hls), andb_true_r.
  unfold markerOk.
  destruct (isHunkMarker l), (isHunkHeader l); simpl in *;
    try reflexivity; discriminate.
Qed.

(** ** Lines and line feeds *)

Lemma splitLines_nonempty s : splitLines s <> [].
Proof.
  destruct s as [|c s]; simpl; [discriminate|].
  destruct (Ascii.eqb c LF); [discriminate|].
  destruct (splitLines s); discriminate.
Qed.

Lemma splitLines_app_LF a b :
  splitLines (a ++ String LF b)%string = splitLines a ++ splitLines b.
Proof.
  induction a as [|c a IH]; simpl.
  - reflexivity.
  - rewrite IH. destruct (Ascii.eqb c LF); [reflexivity|].
    destruct (splitLines a) as [|l ls] eqn:E; [|reflexivity].
    now apply splitLines_nonempty in E.
Qed.

Lemma joinLines_cons x y r :
  joinLines (x :: y :: r) = (x ++ String LF (joinLines (y :: r)))%string.
Proof. reflexivity. Qed.

Lemma splitLines_joinLines x parts :
  splitLines (joinLines (x :: parts)) = flat_map splitLines (x :: parts).
Proof.
  revert x. induction parts as [|y r IH]; intros x.
  - simpl. now rewrite app_nil_r.
  - rewrite joinLines_cons, splitLines_app_LF, IH. reflexivity.
Qed.

Lemma splitLines_one s : noLF s = true -> splitLines s = [s].
Proof.
  unfold noLF. induction s as [|c s IH]; simpl; [reflexivity|].
  intros H. apply andb_prop in H as [Hc Hs]. apply negb_true_iff in Hc.
  rewrite Hc, (IH Hs). reflexivity.
Qed.

Lemma splitLines_noLF s : forallb noLF (splitLines s) = true.
Proof.
  induction s as [|c s IH]; simpl; [reflexivity|].
  destruct (Ascii.eqb c LF) eqn:E; simpl; [exact IH|].
  destruct (splitLines s) as [|l ls]; simpl in *.
  - unfold noLF. simpl. now rewrite E.
  - apply andb_prop in IH as [Hl Hls].
    unfold noLF in *. simpl. now rewrite E, Hl, Hls.
Qed.

Lemma joinLines_splitLines s : joinLines (splitLines s) = s.
Proof.
  induction s as [|c s IH]; simpl; [reflexivity|].
  destruct (Ascii.eqb c LF) eqn:E.
  - apply Ascii.eqb_eq in E. subst c.
    destruct (splitLines s) as [|l ls] eqn:Es;
      [now apply splitLines_nonempty in Es|].
    rewrite joinLines_cons. simpl. now rewrite IH.
  - destruct (splitLines s) as [|l ls] eqn:Es;
      [now apply splitLines_nonempty in Es|].
    destruct ls as [|l' ls'].
    + change (joinLines [l]) with l in IH. subst s. reflexivity.
    + rewrite joinLines_cons in *. simpl. now rewrite IH.
Qed.

Lemma flat_map_splitLines_lines ls :
  forallb noLF ls = true -> flat_map splitLines ls = ls.
Proof.
  induction ls as [|l ls IH]; simpl; [reflexivity|].
  intros H. apply andb_prop in H as [Hl Hls].
  now rewrite (splitLines_one l Hl), (IH Hls).
Qed.

Lemma splitLines_of_lines l ls :
  forallb noLF (l :: ls) = true -> splitLines (joinLines (l :: ls)) = l :: ls.
Proof.
  intros H. rewrite splitLines_joinLines. now apply flat_map_splitLines_lines.
Qed.

Lemma noLF_app a b : noLF (a ++ b)%string = noLF a && noLF b.
Proof.
  unfold noLF. induction a as [|c a IH]; simpl; [reflexivity|].
  now rewrite IH, andb_assoc.
Qed.

Lemma noLineBreak_noLF s : noLineBreak s = true -> noLF s = true.
Proof.
  unfold noLineBreak, noLF, isLineTerminator.
  induction s as [|c s IH]; simpl; [reflexivity|].
  intros H. apply andb_prop in H as [Hc Hs]. rewrite (IH Hs), andb_true_r.
  destruct (Ascii.eqb c LF); [discriminate Hc | reflexivity].
Qed.

(** ** The reconstructed diff, parsed again *)

Lemma takeDots_id p : noLineBreak p = true -> takeDots p = p.
Proof.
  unfold noLineBreak. induction p as [|c p IH]; simpl; [reflexivity|].
  intros H. apply andb_prop in H as [Hc Hp]. apply negb_true_iff in Hc.
  now rewrite Hc, (IH Hp).
Qed.

Lemma matchNewPath_none p : includes p " b/" = false -> matchNewPath p = None.
Proof.
  induction p as [|c p IH]; [reflexivity|].
  cbn [includes matchNewPath]. intros H.
  apply orb_false_iff in H as [Hhere Hrest].
  unfold startsWith in Hhere. fold startsWith in Hhere.
  change (startsWith (String c p) " b/") with
    (Ascii.eqb c " " && startsWith p "b/").
  rewrite Hhere, (IH Hrest). destruct (isLineTerminator c); reflexivity.
Qed.

Lemma matchNewPath_separator p x :
  wfPath p = true -> noLineBreak x = true ->
  matchNewPath (x ++ " b/" ++ p)%string = Some p.
Proof.
  unfold wfPath. intros Hp Hx. apply andb_prop in Hp as [Hlb Hinc].
  apply negb_true_iff in Hinc.
  induction x as [|c x IH].
  - cbn. rewrite startsWith_empty, (matchNewPath_none p Hinc).
    now rewrite (takeDots_id p Hlb).
  - unfold noLineBreak in Hx. simpl in Hx. apply andb_prop in Hx as [Hc Hx].
    apply negb_true_iff in Hc.
    change (String c x ++ " b/" ++ p)%string
      with (String c (x ++ " b/" ++ p)%string).
    cbn [matchNewPath]. rewrite Hc, (IH Hx). reflexivity.
Qed.

Lemma headerPath_headerLine p : wfPath p = true -> headerPath (headerLine p) = p.
Proof.
  intros Hp. unfold headerPath, headerLine.
  assert (Hlb : noLineBreak p = true)
    by (unfold wfPath in Hp; now apply andb_prop in Hp as [H _]).
  pose proof (matchNewPath_separator p p Hp Hlb) as H. cbn [append] in H.
  cbn. rewrite ?startsWith_empty. now rewrite H.
Qed.

Lemma stepV_header st p :
  wfPath p = true ->
  stepV st (headerLine p)
  = mkV (saveFileV st) (Some (mkFile p 0 0 [])) None [].
Proof.
  intros Hp. unfold stepV.
  change (isFileHeader (headerLine p)) with true. cbv iota.
  now rewrite headerPath_headerLine.
Qed.

Lemma countLines_cons p l ls :
  countLines p (l :: ls) = (if p l then 1 else 0) + countLines p ls.
Proof.
  unfold countLines. cbn [filter]. destruct (p l); [|lia].
  cbn [List.length]. rewrite Nat2Z.inj_succ. lia.
Qed.

Lemma extendFile_zero f : extendFile f 0 0 [] = f.
Proof.
  destruct f. unfold extendFile. simpl.
  now rewrite !Z.add_0_r, app_nil_r.
Qed.

Lemma contentLineOk_classes l :
  contentLineOk l = true ->
  isFileHeader l = false /\ isMetadata l = false /\ isHunkMarker l = false.
Proof.
  unfold contentLineOk. intros H.
  apply andb_prop in H as [H H3]. apply andb_prop in H as [H1 H2].
  now rewrite (proj1 (negb_true_iff _) H1), (proj1 (negb_true_iff _) H2),
    (proj1 (negb_true_iff _) H3).
Qed.

Lemma bumpV_extend l g :
  bumpV l g
  = extendFile g (if isAddition l then 1 else 0)
                 (if isDeletion l then 1 else 0) [].
Proof.
  unfold bumpV, extendFile. destruct (isAddition l) eqn:Ha.
  - destruct (addition_class l Ha) as (_ & _ & _ & ->).
    now rewrite Z.add_0_r, app_nil_r.
  - destruct (isDeletion l); rewrite ?Z.add_0_r, app_nil_r;
      destruct g; reflexivity.
Qed.

Lemma extendFile_twice g a d a' d' :
  extendFile (extendFile g a d []) a' d' [] = extendFile g (a + a') (d + d') [].
Proof.
  unfold extendFile. simpl. rewrite !app_nil_r. f_equal; lia.
Qed.

(** The lines of a body, read with a hunk open, are collected and counted. *)
Lemma runBodyV body : forall F g h hc,
  forallb contentLineOk body = true ->
  fold_left stepV body (mkV F (Some g) (Some h) hc)
  = mkV F (Some (extendFile g (countLines isAddition body)
                            (countLines isDeletion body) []))
        (Some h) (hc ++ body).
Proof.
  induction body as [|l body IH]; intros F g h hc Hok.
  - simpl. now rewrite extendFile_zero, app_nil_r.
  - simpl in Hok. apply andb_prop in Hok as [Hl Hbody].
    destruct (contentLineOk_classes l Hl) as (Hfh & Hmd & Hmk).
    cbn [fold_left]. unfold stepV at 2. rewrite Hfh, Hmd, Hmk.
    cbn [vHunk vFiles vFile vContent option_map].
    rewrite (IH _ _ _ _ Hbody), bumpV_extend, extendFile_twice.
    rewrite !countLines_cons, <- app_assoc. reflexivity.
Qed.

Lemma wfHunk_lines h :
  wfHunk h = true ->
  exists hd body m,
    hunkLines h = hd :: body /\ isHunkMarker hd = true
    /\ matchHunkHeader hd = Some m /\ sameFields h (newHunk m) = true
    /\ forallb contentLineOk body = true.
Proof.
  unfold wfHunk. destruct (hunkLines h) as [|hd body]; [discriminate|].
  intros H. apply andb_prop in H as [H Hbody]. apply andb_prop in H as [Hmk H].
  destruct (matchHunkHeader hd) as [m|] eqn:Hm; [|discriminate].
  exists hd, body, m. repeat split; assumption.
Qed.

Lemma sameFields_content h g lines :
  sameFields h g = true -> hunkLines h = lines ->
  withContent g (joinLines lines) = h.
Proof.
  unfold sameFields, hunkLines, withContent. intros H <-.
  rewrite joinLines_splitLines.
  apply andb_prop in H as [H H4]. apply andb_prop in H as [H H3].
  apply andb_prop in H as [H1 H2].
  apply Z.eqb_eq in H1, H2, H3, H4. destruct h. simpl in *. congruence.
Qed.

(** The lines of well-formed hunks, read with a file open, close the hunk
    that was open and add the hunks, with their counts, to the file. *)
Lemma runHunksV hs : forall F g o hc P,
  forallb wfHunk hs = true ->
  pendingV (mkV F (Some g) o hc) = Some P ->
  saveFileV (fold_left stepV (flat_map hunkLines hs) (mkV F (Some g) o hc))
  = F ++ [extendFile P (sumIn isAddition hs) (sumIn isDeletion hs) hs].
Proof.
  induction hs as [|h hs IH]; intros F g o hc P Hwf HP.
  - simpl. unfold saveFileV. rewrite HP. simpl.
    unfold sumIn. simpl. now rewrite extendFile_zero.
  - simpl in Hwf. apply andb_prop in Hwf as [Hh Hhs].
    destruct (wfHunk_lines h Hh) as (hd & body & m & Hl & Hmk & Hm & Hsf & Hb).
    destruct (markers_disjoint hd Hmk) as [Hfh Hmd].
    cbn [flat_map]. rewrite Hl. cbn [app fold_left]. rewrite fold_left_app.
    assert (Hstep : stepV (mkV F (Some g) o hc) hd
                    = mkV F (Some P) (Some (newHunk m)) [hd]).
    { unfold stepV. rewrite Hfh, Hmd, Hmk, Hm.
      cbn [vHunk vFile vFiles vContent].
      unfold pendingV in HP. cbn [vHunk vFile vContent] in HP.
      injection HP as <-. destruct o; reflexivity. }
    rewrite Hstep, (runBodyV body _ _ _ _ Hb).
    rewrite (IH F _ _ _
               (closeHunkV (extendFile P (countLines isAddition body)
                                       (countLines isDeletion body) [])
                           (newHunk m) ([hd] ++ body))
               Hhs); [|reflexivity].
    f_equal. f_equal.
    unfold closeHunkV, extendFile, sumIn. cbn [path additions deletions hunks].
    rewrite (sameFields_content h (newHunk m) ([hd] ++ body) Hsf Hl).
    cbn [map fold_right]. unfold countIn. rewrite Hl. cbn [tl].
    rewrite app_nil_r, <- app_assoc. f_equal; lia.
Qed.

Lemma wfFile_parts f :
  wfFile f = true ->
  wfPath (path f) = true /\ forallb wfHunk (hunks f) = true
  /\ f = mkFile (path f) (sumIn isAddition (hunks f))
                (sumIn isDeletion (hunks f)) (hunks f).
Proof.
  unfold wfFile. intros H.
  apply andb_prop in H as [H Hd]. apply andb_prop in H as [H Ha].
  apply andb_prop in H as [Hp Hh]. apply Z.eqb_eq in Ha, Hd.
  repeat split; auto. destruct f. simpl in *. congruence.
Qed.

Lemma runFileV f st :
  wfFile f = true ->
  saveFileV (fold_left stepV (fileLines f) st) = saveFileV st ++ [f].
Proof.
  intros Hwf. destruct (wfFile_parts f Hwf) as (Hp & Hh & Hf).
  unfold fileLines. cbn [app fold_left].
  rewrite (stepV_header st (path f) Hp).
  assert (Hmeta : forall st' l,
             isFileHeader l = false -> isMetadata l = true -> stepV st' l = st').
  { intros st' l H1 H2. unfold stepV. now rewrite H1, H2. }
  rewrite !Hmeta by reflexivity.
  erewrite runHunksV; [|exact Hh|reflexivity].
  unfold extendFile. simpl. rewrite <- Hf. reflexivity.
Qed.

Lemma runFilesV fs : forall st,
  forallb wfFile fs = true ->
  saveFileV (fold_left stepV (flat_map fileLines fs) st) = saveFileV st ++ fs.
Proof.
  induction fs as [|f fs IH]; intros st Hwf.
  - simpl. now rewrite app_nil_r.
  - cbn [forallb] in Hwf. apply andb_prop in Hwf as [Hf Hfs].
    cbn [flat_map].
    rewrite fold_left_app, (IH _ Hfs), (runFileV f st Hf), <- app_assoc.
    reflexivity.
Qed.

Lemma flat_map_twice {A B C} (f : A -> list B) (g : B -> list C) l :
  flat_map g (flat_map f l) = flat_map (fun x => flat_map g (f x)) l.
Proof.
  induction l as [|x l IH]; simpl; [reflexivity|].
  now rewrite flat_map_app, IH.
Qed.

Lemma flat_map_map_lines hs :
  flat_map splitLines (map content hs) = flat_map hunkLines hs.
Proof.
  induction hs as [|h hs IH]; simpl; [reflexivity | now rewrite IH].
Qed.

Lemma fileParts_lines f :
  wfPath (path f) = true -> flat_map splitLines (fileParts f) = fileLines f.
Proof.
  intros Hp. unfold wfPath in Hp. apply andb_prop in Hp as [Hlb _].
  apply noLineBreak_noLF in Hlb.
  unfold fileParts, fileLines, headerLine.
  rewrite flat_map_app, flat_map_map_lines. f_equal.
  cbn [flat_map].
  rewrite !splitLines_one; [reflexivity| | |];
    rewrite ?noLF_app, ?Hlb; reflexivity.
Qed.

Lemma printed_lines f fs :
  forallb wfFile (f :: fs) = true ->
  splitLines (filesToDiffString (f :: fs)) = flat_map fileLines (f :: fs).
Proof.
  intros Hwf. unfold filesToDiffString.
  assert (Hparts : exists x parts, flat_map fileParts (f :: fs) = x :: parts).
  { simpl. eauto. }
  destruct Hparts as (x & parts & Hparts). rewrite Hparts.
  rewrite splitLines_joinLines, <- Hparts, flat_map_twice.
  clear Hparts. revert Hwf. generalize (f :: fs) as l.
  induction l as [|g l IH]; intros Hwf; [reflexivity|].
  cbn [forallb] in Hwf. apply andb_prop in Hwf as [Hg Hl].
  cbn [flat_map]. rewrite (IH Hl).
  destruct (wfFile_parts g Hg) as (Hp & _). now rewrite (fileParts_lines g Hp).
Qed.

Lemma hunkLines_markers h :
  wfHunk h = true -> markersWellFormed (hunkLines h) = true.
Proof.
  intros Hh. destruct (wfHunk_lines h Hh) as (hd & body & m & -> & Hmk & Hm & _ & Hb).
  unfold markersWellFormed. cbn [forallb].
  unfold isHunkHeader at 1. rewrite Hmk, Hm. simpl.
  apply forallb_forall. intros l Hin.
  rewrite forallb_forall in Hb.
  destruct (contentLineOk_classes l (Hb l Hin)) as (_ & _ & ->). reflexivity.
Qed.

Lemma markersWellFormed_app a b :
  markersWellFormed (a ++ b) = markersWellFormed a && markersWellFormed b.
Proof.
  unfold markersWellFormed. apply forallb_app.
Qed.

Lemma fileLines_markers f :
  wfFile f = true -> markersWellFormed (fileLines f) = true.
Proof.
  intros Hwf. destruct (wfFile_parts f Hwf) as (_ & Hh & _).
  unfold fileLines. rewrite markersWellFormed_app.
  change (markersWellFormed
            [headerLine (path f); ("--- a/" ++ path f)%string;
             ("+++ b/" ++ path f)%string]) with true.
  cbn [andb]. revert Hh. generalize (hunks f) as hs.
  induction hs as [|h hs IH]; intros Hh; [reflexivity|].
  cbn [forallb] in Hh. apply andb_prop in Hh as [H1 H2].
  cbn [flat_map]. now rewrite markersWellFormed_app, hunkLines_markers, IH.
Qed.

Lemma filesLines_markers fs :
  forallb wfFile fs = true ->
  markersWellFormed (flat_map fileLines fs) = true.
Proof.
  induction fs as [|f fs IH]; intros Hwf; [reflexivity|].
  cbn [forallb] in Hwf. apply andb_prop in Hwf as [Hf Hfs].
  cbn [flat_map]. now rewrite markersWellFormed_app, fileLines_markers, IH.
Qed.

Lemma print_parse_wf fs :
  forallb wfFile fs = true -> parseDiff (filesToDiffString fs) = fs.
Proof.
  intros Hwf. destruct fs as [|f fs]; [reflexivity|].
  unfold parseDiff. rewrite (printed_lines f fs Hwf).
  rewrite parseLines_values
    by (apply markersWellFormed_ok, filesLines_markers, Hwf).
  unfold parseLinesV. now rewrite runFilesV.
Qed.

(** X9. Reconstruction followed by parsing is the identity on well-formed
    file records: when every path is free of line breaks and of the
    separator [ b/], every hunk content starts with a hunk header that
    gives the four numbers of the hunk and goes on with content lines,
    and the counters count the added and removed lines of the hunks, then
    [parseDiff (filesToDiffString files)] is [files]. *)
Theorem parseDiff_filesToDiffString (fs : list DiffFile) :
  forallb wfFile fs = true -> parseDiff (filesToDiffString fs) = fs.
Proof.
  exact (print_parse_wf fs).
Qed.

Lemma parseDiff_filesToDiffString_witness :
  parseDiff (filesToDiffString (parseDiff sampleDiff)) = parseDiff sampleDiff.
Proof.
  apply (parseDiff_filesToDiffString (parseDiff sampleDiff)).
  vm_compute. reflexivity.
Defined.

(** ** The files of the parser are well formed *)

Lemma startsWith_takeDots y : forall pre,
  noLineBreak pre = true -> startsWith (takeDots y) pre = startsWith y pre.
Proof.
  induction y as [|c y IH]; intros pre Hpre; [reflexivity|].
  cbn [takeDots]. destruct pre as [|a pre].
  - destruct (isLineTerminator c); reflexivity.
  - unfold noLineBreak in Hpre. simpl in Hpre.
    apply andb_prop in Hpre as [Ha Hpre]. apply negb_true_iff in Ha.
    destruct (isLineTerminator c) eqn:Hc; simpl.
    + destruct (Ascii.eqb c a) eqn:E; [|reflexivity].
      apply Ascii.eqb_eq in E. subst. congruence.
    + now rewrite (IH pre Hpre).
Qed.

Lemma includes_tail c y sub :
  includes (String c y) sub = false -> includes y sub = false.
Proof.
  cbn [includes]. intros H. now apply orb_false_iff in H as [_ H].
Qed.

Lemma matchNewPath_none_run x :
  matchNewPath x = None -> includes (takeDots x) " b/" = false.
Proof.
  induction x as [|c x IH]; [reflexivity|].
  cbn [matchNewPath takeDots]. intros H.
  destruct (isLineTerminator c) eqn:Hc; [reflexivity|].
  destruct (matchNewPath x) as [q|]; [discriminate H|].
  cbn [includes]. rewrite (IH eq_refl), orb_false_r.
  pose proof (startsWith_takeDots (String c x) " b/" eq_refl) as Hs.
  cbn [takeDots] in Hs. rewrite Hc in Hs. rewrite Hs.
  destruct (startsWith (String c x) " b/"); [discriminate H | reflexivity].
Qed.

Lemma matchNewPath_no_separator s : forall p,
  matchNewPath s = Some p -> includes p " b/" = false.
Proof.
  induction s as [|c s IH]; intros p H; [discriminate H|].
  cbn [matchNewPath] in H.
  destruct (startsWith (String c s) " b/") eqn:Hhere.
  - assert (Hc : c = " "%char /\ exists t, s = String "b" (String "/" t)).
    { simpl in Hhere. destruct (Ascii.eqb c " ") eqn:E; [|discriminate].
      apply Ascii.eqb_eq in E. split; [assumption|].
      destruct s as [|c1 [|c2 t]]; simpl in Hhere; try discriminate.
      - destruct (Ascii.eqb c1 "b"); discriminate.
      - destruct (Ascii.eqb c1 "b") eqn:E1; [|discriminate].
        destruct (Ascii.eqb c2 "/") eqn:E2; [|discriminate].
        apply Ascii.eqb_eq in E1, E2. subst. now exists t. }
    destruct Hc as (-> & t & ->).
    change (isLineTerminator " ") with false in H. cbv iota in H.
    destruct (matchNewPath (String "b" (String "/" t))) as [q|] eqn:Hq.
    + injection H as <-. now apply IH.
    + injection H as <-. simpl.
      apply matchNewPath_none_run in Hq.
      change (takeDots (String "b" (String "/" t)))
        with (String "b" (String "/" (takeDots t))) in Hq.
      now apply includes_tail, includes_tail in Hq.
  - destruct (isLineTerminator c); [discriminate H|].
    destruct (matchNewPath s) as [q|]; [|discriminate H].
    injection H as <-. now apply IH.
Qed.

Lemma matchFileHeader_no_separator l : forall p,
  matchFileHeader l = Some p -> includes p " b/" = false.
Proof.
  induction l as [|c l IH]; intros p H.
  - simpl in H. discriminate H.
  - cbn [matchFileHeader] in H.
    destruct (startsWith (String c l) "diff --git a/").
    + destruct (matchNewPath (dropString 13 (String c l))) as [q|] eqn:E.
      * injection H as <-. now apply (matchNewPath_no_separator _ _ E).
      * now apply IH.
    + now apply IH.
Qed.

Lemma headerPath_wf l : wfPath (headerPath l) = true.
Proof.
  unfold headerPath, wfPath.
  destruct (matchFileHeader l) as [p|] eqn:E; [|reflexivity].
  now rewrite (matchFileHeader_noLineBreak l p E),
    (matchFileHeader_no_separator l p E).
Qed.

Lemma closed_wf hd body m :
  isHunkMarker hd = true -> matchHunkHeader hd = Some m ->
  forallb contentLineOk body = true -> forallb noLF (hd :: body) = true ->
  wfHunk (withContent (newHunk m) (joinLines (hd :: body))) = true
  /\ forall p, countIn p (withContent (newHunk m) (joinLines (hd :: body)))
               = countLines p body.
Proof.
  intros Hmk Hm Hb Hlf.
  unfold wfHunk, countIn, hunkLines, withContent. cbn [content].
  rewrite (splitLines_of_lines hd body Hlf). rewrite Hmk, Hm, Hb.
  split; [|reflexivity].
  unfold sameFields. cbn. now rewrite !Z.eqb_refl.
Qed.

Lemma sumIn_snoc p hs h : sumIn p (hs ++ [h]) = sumIn p hs + countIn p h.
Proof.
  unfold sumIn. induction hs as [|x hs IH]; simpl; [lia|]. rewrite IH. lia.
Qed.

(** Closing the open hunk of a well-formed state gives a well-formed
    file. *)
Lemma pendingV_wf st f :
  wfV st -> pendingV st = Some f -> wfFile f = true.
Proof.
  intros (_ & Hfile & Hopen). unfold pendingV.
  destruct (vFile st) as [g|] eqn:Hg; [|discriminate].
  destruct (Hfile g Hg) as (Hp & Hh & Ha & Hd).
  intros H. injection H as <-. unfold openCount in *.
  destruct (vHunk st) as [h|] eqn:Hh'.
  - destruct (Hopen g h Hg Hh')
      as (hd & body & m & Hc & Hmk & Hm & -> & Hb & Hlf).
    rewrite Hc in *. cbn [tl] in *.
    destruct (closed_wf hd body m Hmk Hm Hb Hlf) as [Hwf Hcount].
    unfold wfFile, closeHunkV. cbn [path additions deletions hunks].
    rewrite Hp, forallb_app, Hh. cbn [forallb]. rewrite Hwf.
    rewrite !sumIn_snoc, !Hcount. cbn [andb].
    apply andb_true_intro. split; apply Z.eqb_eq; assumption.
  - unfold wfFile. rewrite Hp, Hh. cbn [andb].
    apply andb_true_intro. split; apply Z.eqb_eq; lia.
Qed.

Lemma saveFileV_wf st : wfV st -> forallb wfFile (saveFileV st) = true.
Proof.
  intros Hwf. pose proof Hwf as (Hfs & _). unfold saveFileV.
  rewrite forallb_app, Hfs.
  destruct (pendingV st) as [f|] eqn:E; [|reflexivity].
  cbn. now rewrite (pendingV_wf st f Hwf E).
Qed.

Lemma countLines_snoc p ls l :
  countLines p (ls ++ [l]) = countLines p ls + (if p l then 1 else 0).
Proof.
  unfold countLines. rewrite filter_app, length_app, Nat2Z.inj_add. simpl.
  destruct (p l); simpl; lia.
Qed.

Lemma stepV_wf st l :
  wfV st -> noLF l = true -> strayFree st l -> wfV (stepV st l).
Proof.
  intros Hwf Hlf Hstray. pose proof Hwf as (Hfs & Hfile & Hopen).
  unfold stepV.
  destruct (isFileHeader l) eqn:Hfh.
  { split; [|split]; cbn [vFiles vFile vHunk vContent].
    - now apply saveFileV_wf.
    - intros f Hf. injection Hf as <-. cbn.
      rewrite headerPath_wf. repeat split; reflexivity.
    - intros f h _ Hh. discriminate Hh. }
  destruct (isMetadata l) eqn:Hmd; [assumption|].
  destruct (isHunkMarker l) eqn:Hmk.
  - destruct (matchHunkHeader l) as [m|] eqn:Hm.
    + split; [|split]; cbn [vFiles vFile vHunk vContent]; [assumption| |].
      * intros f' Hf'. unfold openCount.
        cbn [vHunk vContent tl]. unfold countLines. cbn.
        destruct (vHunk st) as [h|] eqn:Hh;
          destruct (vFile st) as [g|] eqn:Hg; try discriminate Hf';
          injection Hf' as <-.
        -- assert (Hpend : pendingV st = Some (closeHunkV g h (vContent st)))
             by (unfold pendingV; now rewrite Hg, Hh).
           pose proof (pendingV_wf st _ Hwf Hpend) as Hw.
           destruct (wfFile_parts _ Hw) as (Hp & Hhs & Heq).
           cbn [path hunks] in *. repeat split; try assumption.
           ++ rewrite Heq. cbn. lia.
           ++ rewrite Heq. cbn. lia.
        -- destruct (Hfile g Hg) as (Hp & Hhs & Ha & Hd).
           unfold openCount in Ha, Hd. rewrite Hh in Ha, Hd.
           repeat split; try assumption; lia.
      * intros f' h' _ Hh'. injection Hh' as <-.
        exists l, [], m. cbn. rewrite Hlf. repeat split; auto.
    + destruct (Hstray Hmk Hm) as [Hh | Hg].
      * rewrite Hh.
        split; [|split]; cbn [vFiles vFile vHunk vContent]; [assumption| |].
        -- intros f' Hf'. destruct (Hfile f' Hf') as (Hp & Hhs & Ha & Hd).
           unfold openCount in *. cbn [vHunk]. rewrite Hh in Ha, Hd.
           repeat split; assumption.
        -- intros f' h' _ Hh'. discriminate Hh'.
      * rewrite Hg.
        assert (Hnone : match vHunk st with
                        | Some _ => @None DiffFile
                        | None => None
                        end = None) by (destruct (vHunk st); reflexivity).
        rewrite Hnone.
        split; [|split]; cbn [vFiles vFile vHunk vContent]; [assumption| |].
        -- intros f' Hf'. discriminate Hf'.
        -- intros f' h' Hf'. discriminate Hf'.
  - destruct (vHunk st) as [h|] eqn:Hh; [|assumption].
    split; [|split]; cbn [vFiles vFile vHunk vContent]; [assumption| |].
    + intros f' Hf'. destruct (vFile st) as [g|] eqn:Hg; [|discriminate Hf'].
      cbn in Hf'. injection Hf' as <-.
      destruct (Hfile g Hg) as (Hp & Hhs & Ha & Hd).
      destruct (Hopen g h Hg Hh)
        as (hd & body & m & Hc & _).
      unfold openCount in *. cbn [vHunk vContent]. rewrite Hh, Hc in *.
      cbn [tl app] in *. rewrite !countLines_snoc, bumpV_extend.
      unfold extendFile. cbn [path additions deletions hunks].
      rewrite app_nil_r. repeat split; try assumption; lia.
    + intros f' h' Hf' Hh'. injection Hh' as <-.
      destruct (vFile st) as [g|] eqn:Hg; [|discriminate Hf'].
      destruct (Hopen g h Hg Hh)
        as (hd & body & m & Hc & Hmk' & Hm & -> & Hb & Hlf').
      exists hd, (body ++ [l]), m. rewrite Hc.
      repeat split; auto.
      * rewrite forallb_app, Hb. cbn. unfold contentLineOk.
        now rewrite Hfh, Hmd, Hmk.
      * cbn [forallb] in *. apply andb_prop in Hlf' as [H1 H2].
        rewrite H1, forallb_app, H2. cbn. now rewrite Hlf.
Qed.

Lemma strayFree_abs st before l :
  agree st before -> markerOk before l = true -> strayFree (absState st) l.
Proof.
  intros [A1 A2] Hok Hmk Hm.
  unfold markerOk, isHunkHeader in Hok. rewrite Hmk, Hm in Hok.
  simpl in Hok. apply negb_true_iff in Hok.
  unfold absState. simpl.
  destruct (currentFile st) as [f|]; [|now right]. left.
  specialize (A2 eq_refl). rewrite Hok in A2.
  destruct (currentHunk st); [discriminate A2 | reflexivity].
Qed.

Lemma scan_wf ls : forall st before,
  storeInv st -> agree st before -> markersOk before ls = true ->
  forallb noLF ls = true -> wfV (absState st) ->
  wfV (fold_left stepV ls (absState st)).
Proof.
  induction ls as [|l ls IH]; intros st before Hinv Ha Hok Hlf Hwf;
    [assumption|].
  cbn [markersOk forallb] in Hok, Hlf.
  apply andb_prop in Hok as [Hl Hrest]. apply andb_prop in Hlf as [Hl' Hlf].
  cbn [fold_left]. rewrite <- (parseStep_abs st before l Hinv Ha Hl).
  apply (IH _ (before ++ [l])); auto.
  - now apply (parseStep_storeInv st before).
  - now apply parseStep_agree.
  - rewrite (parseStep_abs st before l Hinv Ha Hl).
    apply stepV_wf; auto. now apply (strayFree_abs st before).
Qed.

Lemma wfV_init : wfV (absState parseInit).
Proof.
  split; [reflexivity|]. split.
  - intros f H. discriminate H.
  - intros f h H. discriminate H.
Qed.

Lemma parse_wf diffContent :
  markersOk [] (splitLines diffContent) = true ->
  forallb wfFile (parseDiff diffContent) = true.
Proof.
  intros Hok. unfold parseDiff, parseLines.
  rewrite (scan_abs _ parseInit [] storeInv_init agree_init Hok).
  apply saveFileV_wf.
  apply (scan_wf _ parseInit []); auto using storeInv_init, agree_init,
    splitLines_noLF, wfV_init.
Qed.

(** X10. In a diff where no line that starts with [@@] without being a
    hunk header stands inside a hunk, every file of [parseDiff] is well
    formed: its path holds no line break and no separator [ b/], the
    content of each of its hunks starts with the header line that gave
    the four numbers of the hunk and goes on with content lines only, and
    its [additions] and [deletions] are the numbers of added and removed
    lines in the contents of its hunks. *)
Theorem parseDiff_well_formed (diffContent : string) :
  markersOk [] (splitLines diffContent) = true ->
  forallb wfFile (parseDiff diffContent) = true.
Proof.
  exact (parse_wf diffContent).
Qed.

Lemma parseDiff_well_formed_witness :
  forallb wfFile (parseDiff sampleDiff) = true.
Proof.
  apply (parseDiff_well_formed sampleDiff). vm_compute. reflexivity.
Defined.

(** X11. In such a diff, the files that [parseDiff] returns survive the
    reconstruction: parsing [filesToDiffString] of them gives the same
    files again, with the same paths, counters, hunk numbers and hunk
    contents. *)
Theorem parseDiff_round_trip (diffContent : string) :
  markersOk [] (splitLines diffContent) = true ->
  parseDiff (filesToDiffString (parseDiff diffContent)) = parseDiff diffContent.
Proof.
  intros Hok. apply print_parse_wf, parse_wf, Hok.
Qed.

Lemma parseDiff_round_trip_witness :
  parseDiff (filesToDiffString (parseDiff commentDiff)) = parseDiff commentDiff.
Proof.
  apply (parseDiff_round_trip commentDiff). vm_compute. reflexivity.
Defined.

(** ** [performReview] *)

Lemma parseDiff_no_header diffContent :
  filter isFileHeader (splitLines diffContent) = [] ->
  parseDiff diffContent = [].
Proof.
  intros H.
  assert (Hp : map path (parseDiff diffContent) = []).
  { unfold parseDiff, parseLines, parseFinish.
    rewrite map_map. cbn [path resolve].
    change (map (fun x => accPath x) ?l) with (map accPath l).
    now rewrite heldPaths_saveFile, heldPaths_scan, H. }
  destruct (parseDiff diffContent); [reflexivity | discriminate Hp].
Qed.

(** X12. A diff without a line that starts with [diff --git], the empty
    diff among them, is reviewed without an error and without a client:
    whatever the patterns of the configuration, also patterns that
    [new RegExp] would refuse, and also when the client cannot be
    created, [performReview] returns the fixed result with the verdict
    [approve]. *)
Theorem performReview_no_files (userConfig : UserConfig)
  (limits : UserLimits) (newClient : Outcome AIClient) (rawDiff : string) :
  filter isFileHeader (splitLines rawDiff) = [] ->
  performReview userConfig limits newClient rawDiff
  = Ok (Returns noFilesResult).
Proof.
  intros H. unfold performReview.
  now rewrite (parseDiff_no_header rawDiff H).
Qed.

Lemma performReview_no_files_witness :
  performReview (mkConfig (Some ["c++"]) None) (mkLimits None None)
                (Raises "OpenAI API key is required") "+a"
  = Ok (Returns noFilesResult).
Proof.
  apply (performReview_no_files (mkConfig (Some ["c++"]) None)
           (mkLimits None None) (Raises "OpenAI API key is required") "+a").
  reflexivity.
Defined.

Lemma merged_verdict results :
  results <> [] ->
  overall_assessment (mergeReviewResults results) = mostSevere results.
Proof.
  intros Hne. unfold mostSevere.
  destruct results as [|r [|r' rs]]; [contradiction Hne; reflexivity| |].
  - unfold carries; simpl. destruct (overall_assessment r); reflexivity.
  - unfold mergeReviewResults. cbn [overall_assessment].
    apply assessLoop_spec.
Qed.

Lemma reviewLoop_nth client total chunks : forall k i c,
  nth_error chunks i = Some c ->
  nth_error (reviewLoop client total k chunks) i
  = Some match processChunk (client (k + i)%nat) c (k + i)%nat total with
         | Returns r => r
         | Raises error => errorResult c (k + i)%nat error
         end.
Proof.
  induction chunks as [|c0 chunks IH]; intros k i c H.
  - destruct i; discriminate H.
  - destruct i as [|i]; simpl in *.
    + injection H as <-. now rewrite Nat.add_0_r.
    + rewrite (IH (S k) i c H). now rewrite Nat.add_succ_r.
Qed.

Lemma carries_In a rs r :
  In r rs -> overall_assessment r = a -> carries a rs = true.
Proof.
  intros Hin Ha. unfold carries. apply existsb_exists.
  exists r. split; [assumption|]. rewrite Ha. destruct a; reflexivity.
Qed.

(** X13. A review that fails on a chunk does not stop [performReview]:
    once the filter has returned and the client exists, [performReview]
    returns a result whatever the client does. When the call of the
    client for some chunk throws, the merged result holds the
    [Review Error] issue of that chunk, and its verdict is not
    [approve]. *)
Theorem performReview_failed_chunk (userConfig : UserConfig)
  (limits : UserLimits) (client : AIClient) (rawDiff : string)
  (fs : list DiffFile) :
  filterFiles (parseDiff rawDiff) userConfig = Ok fs ->
  exists r,
    performReview userConfig limits (Returns client) rawDiff = Ok (Returns r)
    /\ (fs <> [] ->
        forall i c error,
          nth_error (chunkStage limits fs) i = Some c ->
          processChunk (client i) c i (List.length (chunkStage limits fs))
          = Raises error ->
          In (errorIssue c error) (issues r)
          /\ overall_assessment r <> approve).
Proof.
  intros Hf. unfold performReview. rewrite Hf. cbn [bind].
  destruct fs as [|f fs'].
  - exists noFilesResult. split; [reflexivity|].
    intros Hne. contradiction Hne. reflexivity.
  - set (chunks := chunkStage limits (f :: fs')).
    set (results := reviewLoop client (List.length chunks) 0 chunks).
    exists (mergeReviewResults results). split; [reflexivity|].
    intros _ i c error Hnth Hfail.
    assert (Hin : In (errorResult c i error) results).
    { apply (nth_error_In _ i). unfold results.
      rewrite (reviewLoop_nth client _ chunks 0 i c Hnth).
      cbn [Nat.add]. now rewrite Hfail. }
    split.
    + rewrite mergeReviewResults_issues_eq. apply in_flat_map.
      exists (errorResult c i error). split; [assumption | now left].
    + assert (Hne : results <> [])
        by (intros E; rewrite E in Hin; contradiction Hin).
      rewrite (merged_verdict results Hne). unfold mostSevere.
      destruct (carries request_changes results); [discriminate|].
      rewrite (carries_In comment results _ Hin eq_refl). discriminate.
Qed.

Lemma limitStage_limitFiles limits fs :
  limitStage limits fs = limitFiles fs (maxFilesOf limits).
Proof.
  unfold limitStage.
  destruct (maxFilesOf limits <? Z.of_nat (List.length fs)) eqn:E;
    [reflexivity|].
  apply Z.ltb_ge in E. now rewrite limitFiles_under.
Qed.

(** X14. The chunks that [performReview] hands to the client hold exactly
    the files that [limitFiles] keeps of the filtered files, in the order
    of [limitFiles]; none of the chunks is empty; and when [max_files] is
    not negative, the chunks hold at most [max_files] files together (20
    when the field is absent). *)
Theorem performReview_chunks (limits : UserLimits) (fs : list DiffFile) :
  flat_map files (chunkStage limits fs) = limitFiles fs (maxFilesOf limits)
  /\ Forall (fun c => files c <> []) (chunkStage limits fs)
  /\ (0 <= maxFilesOf limits ->
      Z.of_nat (List.length (flat_map files (chunkStage limits fs)))
      <= maxFilesOf limits).
Proof.
  assert (Hcover : flat_map files (chunkStage limits fs)
                   = limitFiles fs (maxFilesOf limits)).
  { unfold chunkStage, splitIntoChunks.
    rewrite splitFinish_covered, fold_covered, limitStage_limitFiles.
    reflexivity. }
  split; [exact Hcover|]. split.
  - unfold chunkStage.
    eapply Forall_impl; [|apply (splitIntoChunks_ok (maxDiffSizeOf limits))].
    intros c (_ & Hne & _). exact Hne.
  - intros Hpos. rewrite Hcover.
    destruct (Z_le_gt_dec (Z.of_nat (List.length fs)) (maxFilesOf limits))
      as [H|H].
    + now rewrite limitFiles_under.
    + rewrite limitFiles_over by lia.
      rewrite length_firstn, sortBy_length. lia.
Qed.

Lemma performReview_chunks_witness :
  Z.of_nat (List.length
              (flat_map files (chunkStage (mkLimits (Some 2) None) sampleFiles)))
  <= 2.
Proof.
  apply (proj2 (proj2 (performReview_chunks (mkLimits (Some 2) None)
                                            sampleFiles))).
  unfold maxFilesOf. cbn [max_files]. lia.
Defined.

Lemma performReview_failed_chunk_witness :
  exists r,
    performReview (mkConfig None None) (mkLimits None None)
                  (Returns (fun _ _ _ => Raises "timeout")) sampleDiff
    = Ok (Returns r)
    /\ (parseDiff sampleDiff <> [] ->
        forall i c error,
          nth_error (chunkStage (mkLimits None None) (parseDiff sampleDiff)) i
          = Some c ->
          processChunk (fun _ _ => Raises "timeout") c i
            (List.length (chunkStage (mkLimits None None)
                                     (parseDiff sampleDiff)))
          = Raises error ->
          In (errorIssue c error) (issues r)
          /\ overall_assessment r <> approve).
Proof.
  apply (performReview_failed_chunk (mkConfig None None) (mkLimits None None)
           (fun _ _ _ => Raises "timeout") sampleDiff (parseDiff sampleDiff)).
  vm_compute. reflexivity.
Defined.

(** ** [formatShortSummary] and [issuesToInlineComments] *)

Lemma severity_cases (i : ReviewIssue) :
  severity_eqb (severity i) sev_critical
  || severity_eqb (severity i) sev_warning
  || severity_eqb (severity i) sev_suggestion = true.
Proof. destruct (severity i); reflexivity. Qed.

Lemma countSeverity_zero result :
  countSeverity sev_critical result = 0%nat ->
  countSeverity sev_warning result = 0%nat ->
  countSeverity sev_suggestion result = 0%nat ->
  issues result = [].
Proof.
  unfold countSeverity. destruct (issues result) as [|i l]; [reflexivity|].
  cbn [filter]. pose proof (severity_cases i) as H.
  destruct (severity_eqb (severity i) sev_critical); [discriminate|].
  destruct (severity_eqb (severity i) sev_warning);
    [intros _; discriminate|].
  destruct (severity_eqb (severity i) sev_suggestion);
    [intros _ _; discriminate|].
  discriminate H.
Qed.

Lemma summaryPart_nil count label :
  summaryPart count label = [] -> count = 0%nat.
Proof.
  unfold summaryPart. destruct count; [reflexivity | discriminate].
Qed.

(** X15. [formatShortSummary] answers [No issues found] exactly when the
    result has no issue at all, of whatever severity. *)
Theorem formatShortSummary_no_issues (result : ReviewResult) :
  formatShortSummary result = "No issues found" <-> issues result = [].
Proof.
  split.
  - unfold formatShortSummary.
    destruct (summaryPart (countSeverity sev_critical result) " critical"
              ++ summaryPart (countSeverity sev_warning result) " warnings"
              ++ summaryPart (countSeverity sev_suggestion result)
                             " suggestions") eqn:E; [|discriminate].
    intros _. apply app_eq_nil in E as [E1 E2].
    apply app_eq_nil in E2 as [E2 E3].
    apply countSeverity_zero; eapply summaryPart_nil; eassumption.
  - intros H. unfold formatShortSummary, countSeverity. rewrite H.
    reflexivity.
Qed.

Lemma located_spec issue :
  located issue = true -> file issue <> EmptyString /\ 0 < line issue.
Proof.
  unfold located. destruct (file issue); [discriminate|].
  intros H. apply Z.ltb_lt in H. split; [discriminate | exact H].
Qed.

Lemma issuesToInlineComments_app l1 l2 :
  issuesToInlineComments (l1 ++ l2)
  = issuesToInlineComments l1 ++ issuesToInlineComments l2.
Proof.
  unfold issuesToInlineComments. now rewrite filter_app, map_app.
Qed.

Lemma issuesToInlineComments_flat_map results :
  issuesToInlineComments (flat_map issues results)
  = flat_map (fun r => issuesToInlineComments (issues r)) results.
Proof.
  induction results as [|r rs IH]; [reflexivity|].
  cbn [flat_map]. now rewrite issuesToInlineComments_app, IH.
Qed.

(** X16. Every inline comment that [issuesToInlineComments] builds has a
    path that is not empty and a line above 0. The inline comments of a
    merged result are those of the merged results, in their order; and
    the result that [performReview] records for a chunk whose review has
    failed gives no inline comment. *)
Theorem issuesToInlineComments_located (results : list ReviewResult) :
  Forall (fun c => Inline.path c <> EmptyString /\ 0 < Inline.line c)
         (issuesToInlineComments (issues (mergeReviewResults results)))
  /\ issuesToInlineComments (issues (mergeReviewResults results))
     = flat_map (fun r => issuesToInlineComments (issues r)) results
  /\ forall chunk i error,
       issuesToInlineComments (issues (errorResult chunk i error)) = [].
Proof.
  split; [|split].
  - unfold issuesToInlineComments. apply Forall_map, Forall_forall.
    intros issue Hin. apply filter_In in Hin as [_ Hloc].
    exact (located_spec issue Hloc).
  - rewrite mergeReviewResults_issues_eq.
    apply issuesToInlineComments_flat_map.
  - intros chunk i error. unfold issuesToInlineComments, errorResult.
    cbn [issues filter]. unfold located, errorIssue. cbn [file line].
    destruct (files chunk) as [|f ?]; [reflexivity|].
    destruct (path f) ; reflexivity.
Qed.
